(** * gifscii: GIF to ASCII terminal animation (ascii.py)

    A shallow embedding of the rendering pipeline and of the playback loop
    of [ascii.py], and the properties of its dimension computation, glyph
    quantisation, frame extraction, pacing and command-line handling.

    Python's [int] is modelled by [Z]; Python's [float] is IEEE 754
    binary64, modelled by the standard library's [spec_float] with
    precision 53 and exponent bound 1024; [str] is [string]; a [dict] with
    string keys is a [gmap string]; exceptions are an error monad. *)

From Stdlib Require Import ZArith QArith Qpower Lia Lqa String Ascii List Bool.
From Stdlib Require Import Floats.SpecFloat.
From stdpp Require Import gmap strings.
Import ListNotations.
Local Open Scope Z_scope.

(** ** Exceptions and the error monad *)

Inductive exn : Set :=
  | ZeroDivisionError
  | OverflowError
  | ValueError
  | IndexError.

Inductive result (A : Type) : Type :=
  | OK (a : A)
  | Raise (e : exn).
Arguments OK {A} a.
Arguments Raise {A} e.

Definition bind {A B : Type} (c : result A) (k : A -> result B) : result B :=
  match c with
  | OK a => k a
  | Raise e => Raise e
  end.

Declare Scope py_scope.
Delimit Scope py_scope with py.
Notation "x <- c ;; k" := (bind c (fun x => k))
  (at level 100, c at next level, right associativity) : py_scope.
Local Open Scope py_scope.

(** ** Python floats: IEEE 754 binary64 *)

Module PyFloat.

Definition prec : Z := 53.
Definition emax : Z := 1024.

Definition float : Set := spec_float.

(** Correctly rounded conversion of an integer (round to nearest, ties to
    even), without the range check. *)
Definition Z2SF (n : Z) : float := binary_normalize prec emax n 0 false.

(** [float(n)] as done implicitly in [n * x] and [n / x]: an integer too
    large for a double raises [OverflowError]. *)
Definition of_int (n : Z) : result float :=
  match Z2SF n with
  | S754_infinity _ => Raise OverflowError
  | f => OK f
  end.

Definition mul (x y : float) : float := SFmul prec emax x y.

Definition is_zero (x : float) : bool :=
  match x with
  | S754_zero _ => true
  | _ => false
  end.

(** [x / y] on floats: a zero divisor raises, everything else is IEEE. *)
Definition truediv (x y : float) : result float :=
  if is_zero y then Raise ZeroDivisionError else OK (SFdiv prec emax x y).

(** [a / b] on integers: the correctly rounded quotient of the two
    integers. *)
Definition int_truediv (a b : Z) : result float :=
  match b with
  | 0 => Raise ZeroDivisionError
  | _ =>
      match a with
      | 0 => OK (S754_zero (b <? 0))
      | _ =>
          match SFdiv prec emax
                  (S754_finite (a <? 0) (Z.to_pos (Z.abs a)) 0)
                  (S754_finite (b <? 0) (Z.to_pos (Z.abs b)) 0) with
          | S754_infinity _ => Raise OverflowError
          | f => OK f
          end
      end
  end.

(** [int(x)]: truncation toward zero. *)
Definition to_int (x : float) : result Z :=
  match x with
  | S754_zero _ => OK 0
  | S754_infinity _ => Raise OverflowError
  | S754_nan => Raise ValueError
  | S754_finite s m e => OK (cond_Zopp s (Z.shiftl (Zpos m) e))
  end.

(** [math.floor(x)]: rounding toward minus infinity. *)
Definition floor (x : float) : result Z :=
  match x with
  | S754_zero _ => OK 0
  | S754_infinity _ => Raise OverflowError
  | S754_nan => Raise ValueError
  | S754_finite s m e => OK (Z.shiftl (cond_Zopp s (Zpos m)) e)
  end.

(** The builtin [max(a, b)]: [b] replaces [a] only when [b > a]. *)
Definition max (a b : float) : float := if SFltb a b then b else a.

(** A decimal literal [n / 10^k], with [n] and [10^k] below [2^53], is the
  double nearest to it. *)
Definition decimal (n : Z) (k : Z) : float :=
  SFdiv prec emax (Z2SF n) (Z2SF (10 ^ k)).

(** Powers of two as rationals. *)
Definition bpow (e : Z) : Q := 2 ^ e.

(** [located x m l]: the value [x], counted in units of the last place,
    is [m] or lies between [m] and [m + 1], below, at or above the
    middle, as the location [l] says. *)
Definition located (x : Q) (m : Z) (l : location) : Prop :=
  match l with
  | loc_Exact => (x == inject_Z m)%Q
  | loc_Inexact Lt => (inject_Z m < x /\ x < inject_Z m + (1 # 2))%Q
  | loc_Inexact Eq => (x == inject_Z m + (1 # 2))%Q
  | loc_Inexact Gt => (inject_Z m + (1 # 2) < x /\ x < inject_Z m + 1)%Q
  end.

(** The unit roundoff of binary64. *)
Definition u : Q := 1 # 9007199254740992.

(** The value of a positive float with mantissa [m] and exponent [e]. *)
Definition V (m : positive) (e : Z) : Q := inject_Z (Z.pos m) * bpow e.


End PyFloat.

(** ** The frame rasteriser: [image_to_ascii] *)

(** The operations of Pillow's [Image] that the program calls. *)
Class PIL (Image : Type) := {
  width : Image -> Z;
  height : Image -> Z;
  info : Image -> gmap string Z;
  resize : Image -> Z * Z -> Image;
  convert : Image -> string -> Image;
  getpixel : Image -> Z * Z -> Z
}.

Definition newline : string := String "010"%char EmptyString.

Definition ascii_chars : string := "@%#*+=-:. ".

Definition len (s : string) : Z := Z.of_nat (String.length s).

(** [s[i]]: a negative index counts from the end. *)
Definition str_index (s : string) (i : Z) : result ascii :=
  let j := if i <? 0 then i + len s else i in
  if (0 <=? j) && (j <? len s) then
    match String.get (Z.to_nat j) s with
    | Some c => OK c
    | None => Raise IndexError
    end
  else Raise IndexError.

(** [range(n)] *)
Definition range (n : Z) : list Z := map Z.of_nat (seq 0 (Z.to_nat n)).

(** Lines 25 to 38: the character grid that fits the terminal bounds. *)
Definition image_to_ascii_size (image_width image_height max_width max_height : Z)
  : result (Z * Z) :=
  aspect_ratio <- PyFloat.int_truediv image_width image_height ;;
  mh <- PyFloat.of_int max_height ;;
  width_by_height <-
    PyFloat.to_int (PyFloat.mul (PyFloat.mul mh aspect_ratio) (PyFloat.Z2SF 2)) ;;
  mw <- PyFloat.of_int max_width ;;
  q <- PyFloat.truediv mw aspect_ratio ;;
  height_by_width <- PyFloat.to_int (PyFloat.mul q (PyFloat.decimal 5 1)) ;;
  if width_by_height <=? max_width
  then OK (width_by_height, max_height)
  else OK (max_width, height_by_width).

(** Line 53. *)
Definition char_index (pixel : Z) : Z :=
  Z.min (len ascii_chars - 1) (pixel * len ascii_chars / 256).

Fixpoint for_x {Image} `{PIL Image} (image : Image) (y : Z) (xs : list Z)
  (line : string) : result string :=
  match xs with
  | [] => OK line
  | x :: xs' =>
      c <- str_index ascii_chars (char_index (getpixel image (x, y))) ;;
      for_x image y xs' (line ++ String c EmptyString)
  end.

Fixpoint for_y {Image} `{PIL Image} (image : Image) (w : Z) (ys : list Z)
  (ascii_art : list string) : result (list string) :=
  match ys with
  | [] => OK ascii_art
  | y :: ys' =>
      line <- for_x image y (range w) EmptyString ;;
      for_y image w ys' (ascii_art ++ [line])
  end.

(** Lines 25 to 55: the rows [ascii_art] of the frame. *)
Definition ascii_rows {Image} `{PIL Image} (image : Image)
  (max_width max_height : Z) : result (list string) :=
  size <- image_to_ascii_size (width image) (height image) max_width max_height ;;
  let '(w, h) := size in
  let image := resize image (w, h) in
  let image := convert image "L" in
  for_y image w (range h) [].

Definition image_to_ascii {Image} `{PIL Image} (image : Image)
  (max_width max_height : Z) : result string :=
  ascii_art <- ascii_rows image max_width max_height ;;
  OK (String.concat newline ascii_art).




(** The dimension negotiation in the words of the specification: two
    candidate grids computed with [floor], in the arithmetic of the
    program. *)
Definition negotiate (sourceWidth sourceHeight maxWidth maxHeight : Z)
  : result (Z * Z) :=
  aspect <- PyFloat.int_truediv sourceWidth sourceHeight ;;
  mh <- PyFloat.of_int maxHeight ;;
  heightLimitedWidth <-
    PyFloat.floor (PyFloat.mul (PyFloat.mul mh aspect) (PyFloat.Z2SF 2)) ;;
  mw <- PyFloat.of_int maxWidth ;;
  q <- PyFloat.truediv mw aspect ;;
  widthLimitedHeight <- PyFloat.floor (PyFloat.mul q (PyFloat.decimal 5 1)) ;;
  if heightLimitedWidth <=? maxWidth
  then OK (heightLimitedWidth, maxHeight)
  else OK (maxWidth, widthLimitedHeight).

(** A bitmap of one grey level, resampled by keeping that level: the
    simplest implementation of the interface, used to instantiate the
    statements below. *)
Record Flat : Type := {
  flat_width : Z;
  flat_height : Z;
  flat_info : gmap string Z;
  flat_level : Z
}.

#[export] Instance Flat_PIL : PIL Flat := {
  width := flat_width;
  height := flat_height;
  info := flat_info;
  resize := fun im size =>
    {| flat_width := fst size; flat_height := snd size;
       flat_info := flat_info im; flat_level := flat_level im |};
  convert := fun im _ => im;
  getpixel := fun im _ => flat_level im
}.

(** ** Frame extraction: [extract_gif_frames] *)

(** What a call either returns or does to the process. *)
Inductive outcome (A : Type) : Type :=
  | Returns (a : A)
  | SysExit (code : Z).
Arguments Returns {A} a.
Arguments SysExit {A} code.

(** The body of the loop over [ImageSequence.Iterator(img)]. *)
Fixpoint for_frame {Image} `{PIL Image} (fs : list Image)
  (frames : list Image) (durations : list PyFloat.float)
  : result (list Image * list PyFloat.float) :=
  match fs with
  | [] => OK (frames, durations)
  | frame :: rest =>
      let rgb_frame := convert frame "RGB" in
      let frames := frames ++ [rgb_frame] in
      let duration := default 100 (info frame !! "duration"%string) in
      d <- PyFloat.of_int duration ;;
      secs <- PyFloat.truediv d (PyFloat.Z2SF 1000) ;;
      for_frame rest frames (durations ++ [secs])
  end.

(** The seconds stored for one frame: the [duration] entry of its [info],
    100 when there is none, divided by [1000.0]. *)
Definition frame_seconds {Image} `{PIL Image} (frame : Image)
  : result PyFloat.float :=
  d <- PyFloat.of_int (default 100 (info frame !! "duration"%string)) ;;
  PyFloat.truediv d (PyFloat.Z2SF 1000).

(** [opened] is what [Image.open] and the frame iterator deliver: the
    frames of the file, or [None] when they raise. Any exception inside the
    [try] block ends the process with status 1. *)
Definition extract_gif_frames {Image} `{PIL Image} (opened : option (list Image))
  : outcome (list Image * list PyFloat.float) :=
  match opened with
  | None => SysExit 1
  | Some fs =>
      match for_frame fs [] [] with
      | OK r => Returns r
      | Raise _ => SysExit 1
      end
  end.

(** ** The animation player: [play_ascii_animation] *)

(** What the program writes to standard output. *)
Inductive message : Type :=
  | Text (s : string)            (* [print(ascii_frame, flush=True)] *)
  | CursorHome                   (* [print('\033[H', end='')] *)
  | Converting                   (* Converting frames to ASCII... *)
  | Progress (i total : Z)       (* Progress: i/total *)
  | Starting                     (* Starting animation... (Press Ctrl+C to stop) *)
  | Stopped                      (* Animation stopped. *)
  | FileNotFound (path : string) (* Error: File ... not found. *)
  | FormatWarning                (* Warning: File may not be a supported image format. *)
  | WidthError                   (* Error: Width must be a positive integer. *)
  | Loading (path : string)      (* Loading GIF: ... *)
  | TerminalSize (w h : Z)       (* Terminal size: wxh *)
  | MaxDimensions (w h : Z)      (* Max ASCII dimensions: wxh characters *)
  | ReadError                    (* Error reading GIF: ... *)
  | Found (n : Z).               (* Found n frames *)

Inductive event : Type :=
  | Stdout (m : message)
  | ClearScreen                  (* [clear_screen()] *)
  | Sleep (t : PyFloat.float).   (* [time.sleep(t)] *)

(** Line 111. *)
Definition sleep_time (duration speed : PyFloat.float) : PyFloat.float :=
  PyFloat.max (PyFloat.decimal 3 2) (PyFloat.mul duration speed).

(** Lines 102 to 114: one pass through the body of the [for] loop. *)
Definition show_frame (frame_count : Z) (ascii_frame : string)
  (duration speed : PyFloat.float) : list event :=
  [ if frame_count =? 0 then ClearScreen else Stdout CursorHome;
    Stdout (Text ascii_frame);
    Sleep (sleep_time duration speed) ].

(** The [for] loop over [zip(ascii_frames, durations)]; returns the events
    and the value of [frame_count] after the loop. *)
Fixpoint for_pairs (pairs : list (string * PyFloat.float)) (speed : PyFloat.float)
  (frame_count : Z) : list event * Z :=
  match pairs with
  | [] => ([], frame_count)
  | (ascii_frame, duration) :: rest =>
      let '(evs, fc) := for_pairs rest speed (frame_count + 1) in
      (show_frame frame_count ascii_frame duration speed ++ evs, fc)
  end.

(** The first [passes] passes of [while True]. *)
Fixpoint while_true (passes : nat) (pairs : list (string * PyFloat.float))
  (speed : PyFloat.float) (frame_count : Z) : list event :=
  match passes with
  | O => []
  | S k =>
      let '(evs, fc) := for_pairs pairs speed frame_count in
      evs ++ while_true k pairs speed fc
  end.

(** The intervals slept in a trace. *)
Definition sleeps (evs : list event) : list PyFloat.float :=
  flat_map (fun ev => match ev with Sleep t => [t] | _ => [] end) evs.


(** Python's [zip] stops at the shorter list. *)
Fixpoint zip {A B} (xs : list A) (ys : list B) : list (A * B) :=
  match xs, ys with
  | x :: xs', y :: ys' => (x, y) :: zip xs' ys'
  | _, _ => []
  end.

(** Lines 89 to 92: the frames are converted before playback starts. *)
Fixpoint convert_frames {Image} `{PIL Image} (frames : list Image)
  (max_width max_height : Z) (i total : Z) (ascii_frames : list string)
  : list event * result (list string) :=
  match frames with
  | [] => ([], OK ascii_frames)
  | frame :: rest =>
      match image_to_ascii frame max_width max_height with
      | Raise e => ([], Raise e)
      | OK ascii_frame =>
          let '(evs, r) :=
            convert_frames rest max_width max_height (i + 1) total
              (ascii_frames ++ [ascii_frame]) in
          (Stdout (Progress (i + 1) total) :: evs, r)
      end
  end.

(** How a run is observed: the process has ended with a status, an
    exception has left the program, or the program is still running. *)
Inductive status : Type :=
  | Exited (code : Z)
  | Uncaught (e : exn)
  | Running.

(** [play_ascii_animation]. The loop has no exit of its own, so a run is
    described by what it has written when [KeyboardInterrupt] arrives:
    [interrupt = Some j] delivers it inside the [try] block after [j]
    events of the loop; [interrupt = None] watches [passes] passes of an
    undisturbed run. *)
Definition play_ascii_animation {Image} `{PIL Image} (frames : list Image)
  (durations : list PyFloat.float) (max_width max_height : Z)
  (speed : PyFloat.float) (passes : nat) (interrupt : option nat)
  : list event * status :=
  let '(evs, r) :=
    convert_frames frames max_width max_height 0 (Z.of_nat (length frames)) [] in
  match r with
  | Raise e => (Stdout Converting :: evs, Uncaught e)
  | OK ascii_frames =>
      let pre := Stdout Converting :: evs ++ [Stdout Starting; Sleep (PyFloat.Z2SF 1)] in
      let pairs := zip ascii_frames durations in
      match interrupt with
      | None => (pre ++ while_true passes pairs speed 0, Running)
      | Some j =>
          (pre ++ firstn j (while_true j pairs speed 0) ++ [Stdout Stopped], Exited 0)
      end
  end.

(** ** The command line: [get_terminal_size] and [main] *)

(** [query] is what [shutil.get_terminal_size()] delivers, [None] when it
    raises [AttributeError] or [OSError]. *)
Definition get_terminal_size (query : option (Z * Z)) : Z * Z :=
  match query with
  | Some (columns, lines) => (columns, lines)
  | None => (80, 24)
  end.

Definition lower_char (c : ascii) : ascii :=
  let n := nat_of_ascii c in
  if (65 <=? n)%nat && (n <=? 90)%nat then ascii_of_nat (n + 32) else c.

Fixpoint lower (s : string) : string :=
  match s with
  | EmptyString => EmptyString
  | String c s' => String (lower_char c) (lower s')
  end.

Definition endswith (s suffix : string) : bool :=
  let n := String.length s in
  let k := String.length suffix in
  (k <=? n)%nat && String.eqb (substring (n - k) k s) suffix.

Record Args : Type := {
  gif_file : string;
  arg_width : option Z;          (* [None] when the argument is absent *)
  arg_speed : PyFloat.float
}.

Record World (Image : Type) : Type := {
  path_exists : bool;            (* [os.path.exists(args.gif_file)] *)
  terminal : option (Z * Z);
  opened : option (list Image)
}.
Arguments path_exists {Image} w.
Arguments terminal {Image} w.
Arguments opened {Image} w.

(** The call that ends [main]. *)
Record Playback (Image : Type) : Type := {
  pb_frames : list Image;
  pb_durations : list PyFloat.float;
  pb_max_width : Z;
  pb_max_height : Z;
  pb_speed : PyFloat.float
}.
Arguments pb_frames {Image} p.
Arguments pb_durations {Image} p.
Arguments pb_max_width {Image} p.
Arguments pb_max_height {Image} p.
Arguments pb_speed {Image} p.

(** Python's truth value of [args.width]: [None] and [0] are false. *)
Definition truthy (w : option Z) : bool :=
  match w with
  | None => false
  | Some n => negb (n =? 0)
  end.

(** Lines 147 to 153. *)
Definition choose_max_width (w : option Z) (terminal_width : Z) : outcome Z :=
  if truthy w then
    match w with
    | Some n => if n <=? 0 then SysExit 1 else Returns n
    | None => Returns (Z.min (terminal_width - 2) 120)
    end
  else Returns (Z.min (terminal_width - 2) 120).

(** [main] up to its last statement: the messages printed, and either the
    exit status or the arguments of the call of [play_ascii_animation]. *)
Definition main {Image} `{PIL Image} (args : Args) (world : World Image)
  : list event * outcome (Playback Image) :=
  if negb (path_exists world) then
    ([Stdout (FileNotFound (gif_file args))], SysExit 1)
  else
    let warn :=
      if existsb (endswith (lower (gif_file args))) [".gif"; ".png"; ".jpg"; ".jpeg"]%string
      then [] else [Stdout FormatWarning] in
    let '(terminal_width, terminal_height) := get_terminal_size (terminal world) in
    let max_height := terminal_height - 4 in
    match choose_max_width (arg_width args) terminal_width with
    | SysExit code => (warn ++ [Stdout WidthError], SysExit code)
    | Returns max_width =>
        let msgs :=
          warn ++ [Stdout (Loading (gif_file args));
                   Stdout (TerminalSize terminal_width terminal_height);
                   Stdout (MaxDimensions max_width max_height)] in
        match extract_gif_frames (opened world) with
        | SysExit code => (msgs ++ [Stdout ReadError], SysExit code)
        | Returns (frames, durations) =>
            (msgs ++ [Stdout (Found (Z.of_nat (length frames)))],
             Returns {| pb_frames := frames;
                        pb_durations := durations;
                        pb_max_width := max_width;
                        pb_max_height := max_height;
                        pb_speed := arg_speed args |})
        end
    end.


(** ** Further notions used in the statements *)



(** The frames printed in a trace. *)
Definition texts (evs : list event) : list string :=
  flat_map (fun ev => match ev with Stdout (Text s) => [s] | _ => [] end) evs.


(** * remove_transparency.py: white background for transparent frames *)

Module RemoveTransparency.

(** The further operations of Pillow that the script calls. [paste] gives
    the background after [background.paste(im, mask=mask)], which changes
    the background in place. *)
Class Paint (Image : Type) `{PIL Image} := {
  mode : Image -> string;
  size : Image -> Z * Z;
  new : string -> Z * Z -> Z * Z * Z -> Image;
  split : Image -> list Image;
  paste : Image -> Image -> option Image -> Image
}.

(** An opened file. Pillow positions it on its first frame and counts at
    least that frame; the attributes of the object ([mode], [size],
    [info]) are those of the frame it is positioned on. *)
Record Gif (Image : Type) : Type := {
  first_frame : Image;
  later_frames : list Image
}.
Arguments first_frame {Image} g.
Arguments later_frames {Image} g.

Definition all_frames {Image} (gif : Gif Image) : list Image :=
  first_frame gif :: later_frames gif.

Definition n_frames {Image} (gif : Gif Image) : Z :=
  Z.of_nat (length (all_frames gif)).

(** What the [try] block can raise. *)
Inductive error : Type :=
  | OpenFailed                   (* raised by [Image.open] *)
  | EOFError                     (* raised by [seek] outside the file *)
  | Raised (e : exn)
  | SaveFailed.                  (* raised by [save] *)

(** [seq[-1]] *)
Definition last_item {A} (l : list A) : result A :=
  match List.last (map Some l) None with
  | Some a => OK a
  | None => Raise IndexError
  end.

(** [gif.seek(frame_num)]: the frame the object is positioned on
    afterwards. *)
Definition seek {Image} (gif : Gif Image) (frame_num : Z) : option Image :=
  if frame_num <? 0 then None else all_frames gif !! Z.to_nat frame_num.

(** Lines 21 to 32: the frame appended for the frame [gif] is positioned
    on. *)
Definition whitened {Image} `{Paint Image} (gif : Image) : result Image :=
  if existsb (String.eqb (mode gif)) ["RGBA"; "LA"; "P"]%string then
    let background := new "RGB" (size gif) (255, 255, 255) in
    let frame_rgba := convert gif "RGBA" in
    mask <- (if String.eqb (mode frame_rgba) "RGBA"
             then (band <- last_item (split frame_rgba) ;; OK (Some band))
             else OK None) ;;
    OK (paste background frame_rgba mask)
  else OK (convert gif "RGB").

(** Lines 17 to 32: the loop over [range(0, gif.n_frames)]; [current] is
    the frame the object is positioned on. *)
Fixpoint for_frame_num {Image} `{Paint Image} (gif : Gif Image)
  (nums : list Z) (current : Image) (frames : list Image)
  : error + (Image * list Image) :=
  match nums with
  | [] => inr (current, frames)
  | frame_num :: rest =>
      match seek gif frame_num with
      | None => inl EOFError
      | Some im =>
          match whitened im with
          | Raise e => inl (Raised e)
          | OK frame => for_frame_num gif rest im (frames ++ [frame])
          end
      end
  end.

(** The arguments of the call of [save] on line 35. *)
Record Saved (Image : Type) : Type := {
  path : string;
  first : Image;                 (* [frames[0]] *)
  append_images : list Image;    (* [frames[1:]] *)
  duration : Z;
  loop : Z
}.
Arguments path {Image} s.
Arguments first {Image} s.
Arguments append_images {Image} s.
Arguments duration {Image} s.
Arguments loop {Image} s.

(** The file system: what [Image.open] delivers for a path ([None] when
    it raises), and whether a call of [save] completes. *)
Record Files (Image : Type) : Type := {
  open : string -> option (Gif Image);
  save : Saved Image -> bool
}.
Arguments open {Image} f.
Arguments save {Image} f.

(** Lines 13 to 36. *)
Definition try_block {Image} `{Paint Image} (files : Files Image)
  (input_path output_path : string) : error + Saved Image :=
  match open files input_path with
  | None => inl OpenFailed
  | Some gif =>
      match for_frame_num gif (range (n_frames gif)) (first_frame gif) [] with
      | inl e => inl e
      | inr (current, frames) =>
          match frames with
          | [] => inl (Raised IndexError)
          | frame0 :: rest =>
              let call :=
                {| path := output_path;
                   first := frame0;
                   append_images := rest;
                   duration := default 100 (info current !! "duration"%string);
                   loop := default 0 (info current !! "loop"%string) |} in
              if save files call then inr call else inl SaveFailed
          end
      end
  end.

Inductive report : Type :=
  | Success (output_path : string)   (* Success! Saved to ... *)
  | Error (e : error).               (* Error: ... *)

Inductive effect (Image : Type) : Type :=
  | Printed (m : report)
  | Written (call : Saved Image).
Arguments Printed {Image} m.
Arguments Written {Image} call.

Definition remove_transparency {Image} `{Paint Image} (files : Files Image)
  (input_path output_path : string) : list (effect Image) * outcome unit :=
  match try_block files input_path output_path with
  | inr call => ([Written call; Printed (Success output_path)], Returns tt)
  | inl e => ([Printed (Error e)], SysExit 1)
  end.

Record Args : Type := {
  input : string;
  output : option string         (* [None] when the argument is absent *)
}.

(** Line 51: [args.output if args.output else args.input]. *)
Definition output_path (args : Args) : string :=
  match output args with
  | Some s => if String.eqb s EmptyString then input args else s
  | None => input args
  end.

Definition main {Image} `{Paint Image} (files : Files Image) (args : Args)
  : list (effect Image) * outcome unit :=
  remove_transparency files (input args) (output_path args).

(** An image of one colour and one opacity: the simplest implementation
    of the operations, used to instantiate the statements below. *)
Record Sheet : Type := {
  sheet_mode : string;
  sheet_size : Z * Z;
  sheet_info : gmap string Z;
  sheet_colour : Z * Z * Z;
  sheet_alpha : Z
}.

Definition band (im : Sheet) (v : Z) : Sheet :=
  {| sheet_mode := "L"; sheet_size := sheet_size im; sheet_info := sheet_info im;
     sheet_colour := (v, v, v); sheet_alpha := 255 |}.

#[export] Instance Sheet_PIL : PIL Sheet := {
  width := fun im => fst (sheet_size im);
  height := fun im => snd (sheet_size im);
  info := sheet_info;
  resize := fun im size =>
    {| sheet_mode := sheet_mode im; sheet_size := size; sheet_info := sheet_info im;
       sheet_colour := sheet_colour im; sheet_alpha := sheet_alpha im |};
  convert := fun im m =>
    {| sheet_mode := m; sheet_size := sheet_size im; sheet_info := sheet_info im;
       sheet_colour := sheet_colour im; sheet_alpha := sheet_alpha im |};
  getpixel := fun im _ =>
    let '(r, g, b) := sheet_colour im in (r * 299 + g * 587 + b * 114) / 1000
}.

#[export] Instance Sheet_Paint : Paint Sheet := {
  mode := sheet_mode;
  size := sheet_size;
  new := fun m s c =>
    {| sheet_mode := m; sheet_size := s; sheet_info := ∅;
       sheet_colour := c; sheet_alpha := 255 |};
  split := fun im =>
    let '(r, g, b) := sheet_colour im in
    if String.eqb (sheet_mode im) "RGBA"
    then [band im r; band im g; band im b; band im (sheet_alpha im)]
    else [band im r; band im g; band im b];
  paste := fun background im mask =>
    let opaque :=
      match mask with
      | Some m => negb (fst (fst (sheet_colour m)) =? 0)
      | None => true
      end in
    if opaque
    then {| sheet_mode := sheet_mode background; sheet_size := sheet_size background;
            sheet_info := sheet_info background;
            sheet_colour := sheet_colour im; sheet_alpha := 255 |}
    else background
}.

End RemoveTransparency.
(** * Properties *)

(** ** The glyph quantiser *)

Lemma len_ascii_chars : len ascii_chars = 10.
Proof. reflexivity. Qed.

Lemma char_index_eq (pixel : Z) : char_index pixel = Z.min 9 (pixel * 10 / 256).
Proof. unfold char_index. rewrite len_ascii_chars. reflexivity. Qed.

Lemma char_index_range (pixel : Z) :
  0 <= pixel <= 255 -> 0 <= char_index pixel <= 9.
Proof.
  intros Hp. rewrite char_index_eq.
  assert (0 <= pixel * 10 / 256) by (apply Z.div_pos; lia).
  lia.
Qed.

Lemma char_index_mono (p1 p2 : Z) :
  p1 <= p2 -> char_index p1 <= char_index p2.
Proof.
  intros Hle. rewrite !char_index_eq.
  assert (p1 * 10 / 256 <= p2 * 10 / 256) by (apply Z.div_le_mono; lia).
  lia.
Qed.

Lemma str_index_ascii_chars (i : Z) :
  0 <= i <= 9 -> exists c, str_index ascii_chars i = OK c.
Proof.
  intros Hi.
  assert (Hcases : i = 0 \/ i = 1 \/ i = 2 \/ i = 3 \/ i = 4 \/
                   i = 5 \/ i = 6 \/ i = 7 \/ i = 8 \/ i = 9) by lia.
  repeat (destruct Hcases as [-> | Hcases]; [eexists; reflexivity |]).
  subst i. eexists; reflexivity.
Qed.

(** C2: for every sample in 0..255 the index is
    [min(len - 1, sample * len // 256)] over the ten-character ramp, it is
    a valid position of the ramp, and it does not decrease when the sample
    grows. *)
Theorem quantize_index_valid_monotone (sample : Z) :
  0 <= sample <= 255 ->
  ascii_chars = "@%#*+=-:. "%string /\
  len ascii_chars = 10 /\
  char_index sample = Z.min (len ascii_chars - 1) (sample * len ascii_chars / 256) /\
  0 <= char_index sample <= 9 /\
  (exists glyph, str_index ascii_chars (char_index sample) = OK glyph) /\
  (forall sample', sample <= sample' <= 255 ->
     char_index sample <= char_index sample').
Proof.
  intros Hs. repeat split; try reflexivity.
  - apply char_index_range; lia.
  - apply char_index_range; lia.
  - apply str_index_ascii_chars, char_index_range; lia.
  - intros s' Hs'. apply char_index_mono; lia.
Qed.

Lemma quantize_index_valid_monotone_witness :
  0 <= 128 <= 255 /\ char_index 128 = 5.
Proof.
  split; [lia |].
  pose proof (quantize_index_valid_monotone 128 ltac:(lia)) as (_ & _ & Heq & _).
  rewrite Heq. reflexivity.
Defined.

(** ** Signs of the floats computed from positive integers *)

Module SignFacts.
Import PyFloat.









End SignFacts.

(** ** Rounding to nearest in binary64 *)

Module Rounding.
Import PyFloat.
Local Open Scope Q_scope.

(** *** Powers of two *)

Lemma bpow_pos (e : Z) : 0 < bpow e.
Proof. unfold bpow. apply Qpower_0_lt. reflexivity. Qed.

Lemma bpow_add (a b : Z) : bpow (a + b) == bpow a * bpow b.
Proof. unfold bpow. apply Qpower_plus. discriminate. Qed.

Lemma bpow_0 : bpow 0 == 1.
Proof. reflexivity. Qed.

Lemma bpow_1 : bpow 1 == 2.
Proof. reflexivity. Qed.

Lemma bpow_m1 : bpow (-1) == 1 # 2.
Proof. reflexivity. Qed.

Lemma bpow_succ (a : Z) : bpow (a + 1) == 2 * bpow a.
Proof. rewrite bpow_add, bpow_1. ring. Qed.

Lemma bpow_pred (a : Z) : bpow (a - 1) == (1 # 2) * bpow a.
Proof.
  replace (a - 1)%Z with (a + -1)%Z by ring. rewrite bpow_add, bpow_m1. ring.
Qed.

Lemma bpow_inject (k : Z) : (0 <= k)%Z -> bpow k == inject_Z (2 ^ k).
Proof.
  intros Hk. unfold bpow. rewrite Zpower_Qpower by exact Hk. reflexivity.
Qed.

Lemma bpow_ge_1 (k : Z) : (0 <= k)%Z -> 1 <= bpow k.
Proof.
  intros Hk. rewrite bpow_inject by exact Hk.
  change 1 with (inject_Z 1). rewrite <- Zle_Qle.
  assert (0 < 2 ^ k)%Z by (apply Z.pow_pos_nonneg; lia). lia.
Qed.

Lemma bpow_le (a b : Z) : (a <= b)%Z -> bpow a <= bpow b.
Proof.
  intros Hab. replace b with (a + (b - a))%Z by ring. rewrite bpow_add.
  pose proof (bpow_pos a). pose proof (bpow_ge_1 (b - a) ltac:(lia)). nra.
Qed.

Lemma bpow_lt (a b : Z) : (a < b)%Z -> bpow a < bpow b.
Proof.
  intros Hab. replace b with (a + 1 + (b - a - 1))%Z by ring.
  rewrite bpow_add, bpow_succ.
  pose proof (bpow_pos a). pose proof (bpow_ge_1 (b - a - 1) ltac:(lia)). nra.
Qed.

Lemma bpow_lt_inv (a b : Z) : bpow a < bpow b -> (a < b)%Z.
Proof.
  intros Hlt. destruct (Z_lt_le_dec a b) as [Hab | Hab]; [exact Hab |].
  pose proof (bpow_le b a Hab). lra.
Qed.

(** *** Number of binary digits *)

Lemma digits2_size (p : positive) : digits2_pos p = Pos.size p.
Proof. induction p as [p IH | p IH |]; simpl; congruence. Qed.

Lemma Zdigits2_log2 (p : positive) :
  Z.pos (digits2_pos p) = (Z.log2 (Z.pos p) + 1)%Z.
Proof.
  rewrite digits2_size. destruct p as [p | p |]; simpl; try reflexivity; lia.
Qed.

Lemma digits2_bounds (p : positive) :
  (2 ^ (Z.pos (digits2_pos p) - 1) <= Z.pos p < 2 ^ Z.pos (digits2_pos p))%Z.
Proof.
  rewrite Zdigits2_log2.
  pose proof (Z.log2_spec (Z.pos p) ltac:(lia)) as Hs.
  replace (Z.log2 (Z.pos p) + 1 - 1)%Z with (Z.log2 (Z.pos p)) by ring.
  replace (Z.log2 (Z.pos p) + 1)%Z with (Z.succ (Z.log2 (Z.pos p))) by ring.
  exact Hs.
Qed.

Lemma digits2_unique (p : positive) (d : Z) :
  (2 ^ (d - 1) <= Z.pos p < 2 ^ d)%Z -> (1 <= d)%Z -> Z.pos (digits2_pos p) = d.
Proof.
  intros Hb Hd. rewrite Zdigits2_log2.
  rewrite (Z.log2_unique (Z.pos p) (d - 1)); [ring | lia |].
  replace (Z.succ (d - 1)) with d by ring. exact Hb.
Qed.

(** *** Shifting a mantissa right while keeping the location of the value *)

(** [located x m l]: the value [x], counted in units of the last place,
    lies at [m] or between [m] and [m + 1] as the location [l] says. *)

Lemma located_record_of_loc (x : Q) (m : Z) (l : location) :
  located x m l <->
  located x (shr_m (shr_record_of_loc m l))
    (loc_of_shr_record (shr_record_of_loc m l)).
Proof. destruct l as [| []]; simpl; tauto. Qed.

Lemma inject_Z_xO (p : positive) : inject_Z (Z.pos p~0) == 2 * inject_Z (Z.pos p).
Proof. rewrite Pos2Z.inj_xO, inject_Z_mult. reflexivity. Qed.

Lemma inject_Z_xI (p : positive) : inject_Z (Z.pos p~1) == 2 * inject_Z (Z.pos p) + 1.
Proof. rewrite Pos2Z.inj_xI, inject_Z_plus, inject_Z_mult. reflexivity. Qed.

Lemma shr_1_located (x : Q) (mrs : shr_record) :
  (0 <= shr_m mrs)%Z ->
  located x (shr_m mrs) (loc_of_shr_record mrs) ->
  shr_m (shr_1 mrs) = (shr_m mrs / 2)%Z /\
  located ((1 # 2) * x) (shr_m (shr_1 mrs)) (loc_of_shr_record (shr_1 mrs)).
Proof.
  destruct mrs as [m r s]. simpl shr_m. intros Hm Hloc.
  destruct m as [| p | p]; [| | lia].
  - split; [reflexivity |].
    destruct r, s; simpl in *; change (inject_Z 0) with 0 in *; lra.
  - destruct p as [p | p |].
    + split; [change (Z.pos p = Z.pos p~1 / 2)%Z; rewrite Pos2Z.inj_xI;
              apply (Z.div_unique _ 2 _ 1); lia |].
      pose proof (inject_Z_xI p) as Hp.
      destruct r, s; simpl in *; lra.
    + split; [change (Z.pos p = Z.pos p~0 / 2)%Z; rewrite Pos2Z.inj_xO;
              apply (Z.div_unique _ 2 _ 0); lia |].
      pose proof (inject_Z_xO p) as Hp.
      destruct r, s; simpl in *; lra.
    + split; [reflexivity |].
      destruct r, s; simpl in *; change (inject_Z 1) with 1 in *;
        change (inject_Z 0) with 0; lra.
Qed.

Lemma located_ext (x y : Q) (m : Z) (l : location) :
  x == y -> located x m l -> located y m l.
Proof. intros Hxy. destruct l as [| []]; simpl; rewrite Hxy; tauto. Qed.

Lemma iter_pos_nat {A : Type} (f : A -> A) (p : positive) (a : A) :
  SpecFloat.iter_pos f p a = Nat.iter (Pos.to_nat p) f a.
Proof.
  revert a. induction p as [p IH | p IH |]; intros a; simpl SpecFloat.iter_pos.
  - rewrite !IH, Pos2Nat.inj_xI.
    replace (S (2 * Pos.to_nat p)) with (Pos.to_nat p + (Pos.to_nat p + 1))%nat by lia.
    rewrite !Nat.iter_add. reflexivity.
  - rewrite !IH, Pos2Nat.inj_xO.
    replace (2 * Pos.to_nat p)%nat with (Pos.to_nat p + Pos.to_nat p)%nat by lia.
    rewrite Nat.iter_add. reflexivity.
  - reflexivity.
Qed.

Lemma shr_iter_located (k : nat) (x : Q) (mrs : shr_record) :
  (0 <= shr_m mrs)%Z ->
  located x (shr_m mrs) (loc_of_shr_record mrs) ->
  shr_m (Nat.iter k shr_1 mrs) = (shr_m mrs / 2 ^ Z.of_nat k)%Z /\
  located (bpow (- Z.of_nat k) * x) (shr_m (Nat.iter k shr_1 mrs))
    (loc_of_shr_record (Nat.iter k shr_1 mrs)).
Proof.
  intros Hm Hloc. induction k as [| k [IHm IHloc]].
  - simpl Nat.iter. split.
    + change (2 ^ Z.of_nat 0)%Z with 1%Z. now rewrite Z.div_1_r.
    + apply (located_ext x); [| exact Hloc]. change (bpow (- Z.of_nat 0)) with 1. ring.
  - simpl Nat.iter.
    assert (Hpow : (0 < 2 ^ Z.of_nat k)%Z) by (apply Z.pow_pos_nonneg; lia).
    assert (Hge : (0 <= shr_m (Nat.iter k shr_1 mrs))%Z).
    { rewrite IHm. apply Z.div_pos; lia. }
    destruct (shr_1_located _ _ Hge IHloc) as [Hm1 Hloc1]. split.
    + rewrite Hm1, IHm, Z.div_div by lia.
      rewrite Nat2Z.inj_succ, Z.pow_succ_r by lia.
      f_equal. ring.
    + refine (located_ext _ _ _ _ _ Hloc1).
      rewrite Nat2Z.inj_succ.
      replace (- Z.succ (Z.of_nat k))%Z with (- Z.of_nat k - 1)%Z by lia.
      rewrite bpow_pred. ring.
Qed.

Lemma shr_located (x : Q) (mrs : shr_record) (e n : Z) :
  (0 <= n)%Z -> (0 <= shr_m mrs)%Z ->
  located x (shr_m mrs) (loc_of_shr_record mrs) ->
  snd (shr mrs e n) = (e + n)%Z /\
  shr_m (fst (shr mrs e n)) = (shr_m mrs / 2 ^ n)%Z /\
  located (bpow (- n) * x) (shr_m (fst (shr mrs e n)))
    (loc_of_shr_record (fst (shr mrs e n))).
Proof.
  intros Hn Hm Hloc. destruct n as [| p | p]; [| | lia].
  - simpl. split; [ring |]. split; [now rewrite Z.div_1_r |].
    apply (located_ext x); [| exact Hloc]. change (bpow (- 0)) with 1. ring.
  - unfold shr. simpl fst; simpl snd. split; [reflexivity |].
    rewrite iter_pos_nat.
    destruct (shr_iter_located (Pos.to_nat p) x mrs Hm Hloc) as [H1 H2].
    rewrite positive_nat_Z in H1, H2. split; assumption.
Qed.

(** *** Rounding the mantissa to nearest, ties to even *)

Lemma inject_Z_between (m z : Z) :
  inject_Z m < inject_Z z -> inject_Z z < inject_Z m + 1 -> False.
Proof.
  intros H1 H2. rewrite <- Zlt_Qlt in H1.
  change 1 with (inject_Z 1) in H2. rewrite <- inject_Z_plus, <- Zlt_Qlt in H2. lia.
Qed.

Lemma inject_Z_half (m z : Z) : inject_Z z == inject_Z m + (1 # 2) -> False.
Proof.
  intros H.
  assert (H2 : inject_Z (2 * z) == inject_Z (2 * m + 1)).
  { rewrite inject_Z_plus, !inject_Z_mult. change (inject_Z 2) with 2.
    change (inject_Z 1) with 1. lra. }
  rewrite inject_Z_injective in H2. lia.
Qed.

Lemma rne_located (x : Q) (m : Z) (l : location) :
  located x m l ->
  (m <= round_nearest_even m l <= m + 1)%Z /\
  inject_Z (round_nearest_even m l) - x <= 1 # 2 /\
  x - inject_Z (round_nearest_even m l) <= 1 # 2 /\
  (forall z : Z, x == inject_Z z -> round_nearest_even m l = z).
Proof.
  intros Hloc.
  assert (Hs : inject_Z (m + 1) == inject_Z m + 1).
  { rewrite inject_Z_plus. reflexivity. }
  destruct l as [| [| |]]; simpl in Hloc |- *.
  - repeat split; try lia; try lra.
    intros z Hz. rewrite Hloc, inject_Z_injective in Hz. exact Hz.
  - destruct (Z.even m); repeat split; try lia; try lra;
      intros z Hz; exfalso; apply (inject_Z_half m z); lra.
  - repeat split; try lia; try lra.
    intros z Hz. exfalso. apply (inject_Z_between m z); lra.
  - repeat split; try lia; try lra.
    intros z Hz. exfalso. apply (inject_Z_between m z); lra.
Qed.

(** *** [binary_round_aux] in the normal range *)

Lemma fexp_normal (e : Z) : (-1021 <= e)%Z -> fexp prec emax e = (e - 53)%Z.
Proof. unfold fexp, emin, prec, emax. lia. Qed.

Lemma shr_m_record_of_loc (m : Z) (l : location) :
  shr_m (shr_record_of_loc m l) = m.
Proof. destruct l as [| []]; reflexivity. Qed.

Lemma round_aux_normal (x : Q) (mx : positive) (ex : Z) (lx : location) :
  let d := Z.pos (digits2_pos mx) in
  (53 <= d)%Z -> (-1021 <= d + ex)%Z -> (d + ex <= 1023)%Z ->
  located (bpow (- ex) * x) (Z.pos mx) lx ->
  exists (m : positive) (e : Z),
    binary_round_aux prec emax false (Z.pos mx) ex lx = S754_finite false m e /\
    Z.pos (digits2_pos m) = 53%Z /\
    (d + ex - 53 <= e <= d + ex - 52)%Z /\
    inject_Z (Z.pos m) * bpow e - x <= bpow (d + ex - 54) /\
    x - inject_Z (Z.pos m) * bpow e <= bpow (d + ex - 54) /\
    (forall z : Z, x == inject_Z z * bpow (d + ex - 53) ->
                   inject_Z (Z.pos m) * bpow e == x).
Proof.
  intros d Hd Hlo Hhi Hloc.
  unfold binary_round_aux, shr_fexp.
  change (Zdigits2 (Z.pos mx)) with d.
  rewrite (fexp_normal (d + ex)) by lia.
  replace (d + ex - 53 - ex)%Z with (d - 53)%Z by ring.
  assert (Hloc0 := proj1 (located_record_of_loc _ _ _) Hloc).
  assert (Hm0 : (0 <= shr_m (shr_record_of_loc (Z.pos mx) lx))%Z)
    by (rewrite shr_m_record_of_loc; lia).
  destruct (shr_located _ _ ex (d - 53) ltac:(lia) Hm0 Hloc0) as (He1 & Hm1 & Hloc1).
  destruct (shr (shr_record_of_loc (Z.pos mx) lx) ex (d - 53)) as [mrs1 e1].
  simpl fst in *; simpl snd in *.
  rewrite shr_m_record_of_loc in Hm1.
  set (m1 := shr_m mrs1) in *. set (l1 := loc_of_shr_record mrs1) in *.
  set (X2 := bpow (- (d - 53)) * (bpow (- ex) * x)) in *.
  assert (HX : x == bpow e1 * X2).
  { unfold X2. rewrite He1.
    assert (H1 : bpow (ex + (d - 53)) * bpow (- (d - 53)) * bpow (- ex) == 1).
    { rewrite <- !bpow_add. replace (ex + (d - 53) + - (d - 53) + - ex)%Z with 0%Z by ring.
      reflexivity. }
    transitivity (bpow (ex + (d - 53)) * bpow (- (d - 53)) * bpow (- ex) * x); [| ring].
    rewrite H1. ring. }
  assert (Hb1 : (4503599627370496 <= m1 < 9007199254740992)%Z).
  { pose proof (digits2_bounds mx) as Hb. fold d in Hb.
    assert (HN : (0 < 2 ^ (d - 53))%Z) by (apply Z.pow_pos_nonneg; lia).
    replace (d - 1)%Z with (52 + (d - 53))%Z in Hb by ring.
    replace d with (53 + (d - 53))%Z in Hb at 2 by ring.
    rewrite !Z.pow_add_r in Hb by lia.
    change (2 ^ 52)%Z with 4503599627370496%Z in Hb.
    change (2 ^ 53)%Z with 9007199254740992%Z in Hb.
    rewrite Hm1. split.
    - apply Z.div_le_lower_bound; lia.
    - apply Z.div_lt_upper_bound; lia. }
  destruct (rne_located X2 m1 l1 Hloc1) as (Hr1 & Hr2 & Hr3 & Hr4).
  set (m2 := round_nearest_even m1 l1) in *.
  assert (Hhalf : bpow (d + ex - 54) == (1 # 2) * bpow e1).
  { rewrite He1. replace (d + ex - 54)%Z with (ex + (d - 53) - 1)%Z by ring.
    apply bpow_pred. }
  pose proof (bpow_pos e1) as Hpe1.
  assert (Hfin : forall (m : positive) (e : Z),
             inject_Z (Z.pos m) * bpow e == inject_Z m2 * bpow e1 ->
             inject_Z (Z.pos m) * bpow e - x <= bpow (d + ex - 54) /\
             x - inject_Z (Z.pos m) * bpow e <= bpow (d + ex - 54) /\
             (forall z : Z, x == inject_Z z * bpow (d + ex - 53) ->
                            inject_Z (Z.pos m) * bpow e == x)).
  { intros m e Hv. split; [| split].
    - rewrite Hv, Hhalf, HX.
      assert (H0 : 0 <= bpow e1 * ((1 # 2) - (inject_Z m2 - X2))).
      { apply Qmult_le_0_compat; lra. }
      lra.
    - rewrite Hv, Hhalf, HX.
      assert (H0 : 0 <= bpow e1 * ((1 # 2) - (X2 - inject_Z m2))).
      { apply Qmult_le_0_compat; lra. }
      lra.
    - intros z Hz. replace (d + ex - 53)%Z with e1 in Hz by lia.
      assert (HXz : X2 == inject_Z z).
      { apply (Qmult_inj_l _ _ (bpow e1)); [lra |].
        rewrite <- HX, Hz. ring. }
      rewrite Hv, (Hr4 z HXz), Hz. ring. }
  destruct (Z.eq_dec m2 9007199254740992%Z) as [Heq | Hne].
  - rewrite Heq.
    replace (fexp prec emax (Zdigits2 9007199254740992%Z + e1) - e1)%Z with 1%Z
      by (change (Zdigits2 9007199254740992%Z) with 54%Z; rewrite fexp_normal; lia).
    cbn -[Z.leb Z.sub].
    replace (e1 + 1 <=? emax - prec)%Z with true
      by (symmetry; apply Z.leb_le; unfold emax, prec; lia).
    exists 4503599627370496%positive, (e1 + 1)%Z.
    split; [reflexivity |]. split; [reflexivity |]. split; [lia |].
    apply Hfin. rewrite Heq, bpow_succ.
    change (inject_Z 9007199254740992) with (2 * inject_Z 4503599627370496). ring.
  - destruct m2 as [| p2 | p2] eqn:Hm2; [lia | | lia].
    assert (Hd2 : Z.pos (digits2_pos p2) = 53%Z).
    { apply digits2_unique; [| lia].
      change (2 ^ (53 - 1))%Z with 4503599627370496%Z.
      change (2 ^ 53)%Z with 9007199254740992%Z. lia. }
    change (Zdigits2 (Z.pos p2)) with (Z.pos (digits2_pos p2)). rewrite Hd2.
    replace (fexp prec emax (53 + e1) - e1)%Z with 0%Z by (rewrite fexp_normal; lia).
    cbn -[Z.leb Z.sub].
    replace (e1 <=? emax - prec)%Z with true
      by (symmetry; apply Z.leb_le; unfold emax, prec; lia).
    exists p2, e1.
    split; [reflexivity |]. split; [exact Hd2 |]. split; [lia |].
    apply Hfin. reflexivity.
Qed.

Lemma located_ge (x : Q) (m : Z) (l : location) : located x m l -> inject_Z m <= x.
Proof. destruct l as [| []]; simpl; lra. Qed.

Lemma located_lt (x : Q) (m : Z) (l : location) : located x m l -> x < inject_Z m + 1.
Proof. destruct l as [| []]; simpl; lra. Qed.

Lemma bpow_cancel (e : Z) : bpow e * bpow (- e) == 1.
Proof. rewrite <- bpow_add. replace (e + - e)%Z with 0%Z by ring. reflexivity. Qed.

(** The same with the error relative to the value: half a unit in the
    last place is at most [2^-53] times the value. *)
Lemma round_aux_relative (x : Q) (mx : positive) (ex : Z) (lx : location) :
  let d := Z.pos (digits2_pos mx) in
  (53 <= d)%Z -> (-1021 <= d + ex)%Z -> (d + ex <= 1023)%Z ->
  located (bpow (- ex) * x) (Z.pos mx) lx ->
  exists (m : positive) (e : Z),
    binary_round_aux prec emax false (Z.pos mx) ex lx = S754_finite false m e /\
    Z.pos (digits2_pos m) = 53%Z /\
    (d + ex - 53 <= e <= d + ex - 52)%Z /\
    inject_Z (Z.pos m) * bpow e <= (1 + u) * x /\
    (1 - u) * x <= inject_Z (Z.pos m) * bpow e /\
    (forall z : Z, x == inject_Z z * bpow (d + ex - 53) ->
                   inject_Z (Z.pos m) * bpow e == x).
Proof.
  intros d Hd Hlo Hhi Hloc.
  destruct (round_aux_normal x mx ex lx Hd Hlo Hhi Hloc)
    as (m & e & Hr & Hdm & He & Hup & Hdn & Hex).
  exists m, e. repeat (split; [assumption || lia |]).
  fold d in Hup, Hdn, Hex.
  assert (Hx : bpow (d + ex - 54) <= u * x).
  { pose proof (located_ge _ _ _ Hloc) as Hge.
    pose proof (digits2_bounds mx) as [Hb _]. fold d in Hb.
    assert (Hq : bpow (d - 1) <= inject_Z (Z.pos mx)).
    { rewrite bpow_inject by lia. rewrite <- Zle_Qle. exact Hb. }
    assert (Hxe : x == bpow ex * (bpow (- ex) * x)).
    { rewrite Qmult_assoc, bpow_cancel. ring. }
    assert (Hd54 : bpow (d + ex - 54) == u * (bpow ex * bpow (d - 1))).
    { replace (d + ex - 54)%Z with (-53 + (ex + (d - 1)))%Z by ring.
      rewrite !bpow_add. reflexivity. }
    rewrite Hd54, Hxe at 1.
    pose proof (bpow_pos ex) as Hpe.
    assert (0 <= bpow ex * (bpow (- ex) * x - bpow (d - 1))).
    { apply Qmult_le_0_compat; lra. }
    unfold u. lra. }
  repeat split; try assumption; lra.
Qed.

(** *** Multiplication, conversions and truncation *)

Lemma digits2_range (p : positive) (a b : Z) :
  (0 <= a)%Z -> (2 ^ a <= Z.pos p < 2 ^ b)%Z ->
  (a + 1 <= Z.pos (digits2_pos p) <= b)%Z.
Proof.
  intros Ha [Hlo Hhi]. pose proof (digits2_bounds p) as [Hb1 Hb2].
  set (d := Z.pos (digits2_pos p)) in *. split.
  - destruct (Z_lt_le_dec d (a + 1)) as [Hlt | Hge]; [| exact Hge].
    assert (2 ^ d <= 2 ^ a)%Z by (apply Z.pow_le_mono_r; lia). lia.
  - destruct (Z_lt_le_dec b d) as [Hlt | Hge]; [| exact Hge].
    assert (2 ^ b <= 2 ^ (d - 1))%Z by (apply Z.pow_le_mono_r; lia). lia.
Qed.

Lemma digits2_53 (m : positive) :
  Z.pos (digits2_pos m) = 53%Z ->
  (4503599627370496 <= Z.pos m < 9007199254740992)%Z.
Proof.
  intros Hd. pose proof (digits2_bounds m) as Hb. rewrite Hd in Hb. exact Hb.
Qed.

Lemma V_bounds (m : positive) (e : Z) :
  Z.pos (digits2_pos m) = 53%Z ->
  bpow (e + 52) <= V m e /\ V m e < bpow (e + 53).
Proof.
  intros Hd. apply digits2_53 in Hd. destruct Hd as [Hlo Hhi].
  rewrite Zle_Qle in Hlo. rewrite Zlt_Qlt in Hhi.
  unfold V. rewrite !bpow_add.
  change (bpow 52) with (inject_Z 4503599627370496).
  change (bpow 53) with (inject_Z 9007199254740992).
  pose proof (bpow_pos e) as Hp. split.
  - assert (0 <= bpow e * (inject_Z (Z.pos m) - inject_Z 4503599627370496))
      by (apply Qmult_le_0_compat; lra).
    lra.
  - assert (0 < bpow e * (inject_Z 9007199254740992 - inject_Z (Z.pos m)))
      by (apply Qmult_lt_0_compat; lra).
    lra.
Qed.

Lemma V_pos (m : positive) (e : Z) : 0 < V m e.
Proof.
  unfold V. apply Qmult_lt_0_compat; [| apply bpow_pos].
  change 0 with (inject_Z 0). rewrite <- Zlt_Qlt. lia.
Qed.

Lemma mul_normal (m1 m2 : positive) (e1 e2 : Z) :
  Z.pos (digits2_pos m1) = 53%Z -> Z.pos (digits2_pos m2) = 53%Z ->
  (-1126 <= e1 + e2 <= 917)%Z ->
  exists (m : positive) (e : Z),
    mul (S754_finite false m1 e1) (S754_finite false m2 e2) = S754_finite false m e /\
    Z.pos (digits2_pos m) = 53%Z /\
    (e1 + e2 + 52 <= e <= e1 + e2 + 54)%Z /\
    V m e <= (1 + u) * (V m1 e1 * V m2 e2) /\
    (1 - u) * (V m1 e1 * V m2 e2) <= V m e.
Proof.
  intros Hd1 Hd2 He.
  pose proof (digits2_53 m1 Hd1) as Hb1. pose proof (digits2_53 m2 Hd2) as Hb2.
  assert (Hd : (105 <= Z.pos (digits2_pos (m1 * m2)) <= 106)%Z).
  { apply (digits2_range (m1 * m2) 104 106); [lia |].
    rewrite Pos2Z.inj_mul.
    change (2 ^ 104)%Z with (4503599627370496 * 4503599627370496)%Z.
    change (2 ^ 106)%Z with (9007199254740992 * 9007199254740992)%Z.
    split.
    - apply Z.mul_le_mono_nonneg; lia.
    - apply Z.mul_lt_mono_nonneg; lia. }
  assert (Hloc : located (bpow (- (e1 + e2)) * (V m1 e1 * V m2 e2))
                   (Z.pos (m1 * m2)) loc_Exact).
  { simpl. unfold V. rewrite Pos2Z.inj_mul, inject_Z_mult.
    transitivity (inject_Z (Z.pos m1) * inject_Z (Z.pos m2) *
                  (bpow (e1 + e2) * bpow (- (e1 + e2)))).
    - rewrite bpow_add. ring.
    - rewrite bpow_cancel. ring. }
  destruct (round_aux_relative (V m1 e1 * V m2 e2) (m1 * m2) (e1 + e2) loc_Exact
              ltac:(lia) ltac:(lia) ltac:(lia) Hloc)
    as (m & e & Hr & Hdm & Hre & Hup & Hdn & _).
  exists m, e. unfold mul. simpl SFmul. rewrite Hr.
  repeat split; try assumption; lia.
Qed.

Lemma to_int_floor (m : positive) (e : Z) :
  to_int (S754_finite false m e) = OK (Z.shiftl (Z.pos m) e) /\
  inject_Z (Z.shiftl (Z.pos m) e) <= V m e /\
  V m e < inject_Z (Z.shiftl (Z.pos m) e) + 1.
Proof.
  split; [reflexivity |]. unfold V.
  destruct (Z_le_gt_dec 0 e) as [He | He].
  - rewrite Z.shiftl_mul_pow2 by exact He.
    rewrite inject_Z_mult, <- bpow_inject by exact He. lra.
  - rewrite Z.shiftl_div_pow2 by lia.
    set (k := (- e)%Z). set (t := (Z.pos m / 2 ^ k)%Z).
    assert (Hk : (0 < 2 ^ k)%Z) by (apply Z.pow_pos_nonneg; lia).
    assert (Hdm : (2 ^ k * t <= Z.pos m < 2 ^ k * (t + 1))%Z).
    { unfold t. pose proof (Z.div_mod (Z.pos m) (2 ^ k) ltac:(lia)).
      pose proof (Z.mod_pos_bound (Z.pos m) (2 ^ k) Hk). lia. }
    destruct Hdm as [Hlo Hhi]. rewrite Zle_Qle in Hlo. rewrite Zlt_Qlt in Hhi.
    rewrite inject_Z_mult in Hlo, Hhi. rewrite inject_Z_plus in Hhi.
    rewrite <- bpow_inject in Hlo, Hhi by lia.
    change (inject_Z 1) with 1 in Hhi.
    pose proof (bpow_cancel e) as Hc. fold k in Hc.
    pose proof (bpow_pos e) as Hpe.
    assert (H1 : 0 <= bpow e * (inject_Z (Z.pos m) - bpow k * inject_Z t))
      by (apply Qmult_le_0_compat; lra).
    assert (H2 : 0 < bpow e * (bpow k * (inject_Z t + 1) - inject_Z (Z.pos m)))
      by (apply Qmult_lt_0_compat; lra).
    assert (H3 : bpow e * (bpow k * inject_Z t) == inject_Z t)
      by (rewrite Qmult_assoc, Hc; ring).
    assert (H4 : bpow e * (bpow k * (inject_Z t + 1)) == inject_Z t + 1)
      by (rewrite Qmult_assoc, Hc; ring).
    lra.
Qed.

(** *** Division *)

Lemma new_location_located (m2 r q : Z) (X : Q) :
  (0 < m2)%Z -> (0 <= r < m2)%Z ->
  X * inject_Z m2 == inject_Z (m2 * q + r) ->
  located X q (new_location m2 r).
Proof.
  intros Hm2 [Hr0 Hr1] HX.
  rewrite inject_Z_plus, inject_Z_mult in HX.
  assert (HM : 0 < inject_Z m2) by (change 0 with (inject_Z 0); now rewrite <- Zlt_Qlt).
  assert (HR0 : 0 <= inject_Z r) by (change 0 with (inject_Z 0); now rewrite <- Zle_Qle).
  assert (Hcmp : forall c : comparison,
             (2 * r ?= m2)%Z = c -> r <> 0%Z -> located X q (loc_Inexact c)).
  { intros c Hc Hr.
    assert (HRp : 0 < inject_Z r)
      by (change 0 with (inject_Z 0); rewrite <- Zlt_Qlt; lia).
    destruct c; simpl.
    - apply Z.compare_eq in Hc.
      assert (H2 : 2 * inject_Z r == inject_Z m2).
      { change 2 with (inject_Z 2). rewrite <- inject_Z_mult, Hc. reflexivity. }
      apply (Qmult_inj_r _ _ (inject_Z m2)); lra.
    - rewrite Z.compare_lt_iff, Zlt_Qlt, inject_Z_mult in Hc.
      change (inject_Z 2) with 2 in Hc.
      split; apply (Qmult_lt_r _ _ (inject_Z m2) HM); lra.
    - rewrite Z.compare_gt_iff, Zlt_Qlt, inject_Z_mult in Hc.
      change (inject_Z 2) with 2 in Hc.
      assert (HR1 : inject_Z r < inject_Z m2) by now rewrite <- Zlt_Qlt.
      split; apply (Qmult_lt_r _ _ (inject_Z m2) HM); lra. }
  assert (Hex : r = 0%Z -> located X q loc_Exact).
  { intros ->. simpl. change (inject_Z 0) with 0 in HX.
    apply (Qmult_inj_r _ _ (inject_Z m2)); lra. }
  unfold new_location. change (IntDef.Z.even m2) with (Z.even m2).
  destruct (Z.even m2) eqn:Hev.
  - unfold new_location_even. change (IntDef.Z.eqb r 0) with (r =? 0)%Z.
    destruct (Z.eqb_spec r 0) as [Hr | Hr]; [now apply Hex |].
    apply Hcmp; [reflexivity | exact Hr].
  - unfold new_location_odd. change (IntDef.Z.eqb r 0) with (r =? 0)%Z.
    destruct (Z.eqb_spec r 0) as [Hr | Hr]; [now apply Hex |].
    assert (Hodd : Z.odd m2 = true) by (rewrite <- Z.negb_even, Hev; reflexivity).
    apply Z.odd_spec in Hodd. destruct Hodd as [k Hk].
    change (IntDef.Z.compare (IntDef.Z.add (IntDef.Z.mul 2 r) 1) m2)
      with (2 * r + 1 ?= m2)%Z.
    destruct (Z.compare_spec (2 * r + 1) m2) as [Hc | Hc | Hc];
      apply Hcmp; try exact Hr.
    + apply Z.compare_lt_iff. lia.
    + apply Z.compare_lt_iff. lia.
    + apply Z.compare_gt_iff. lia.
Qed.

Lemma quotient_bounds (A B m1' m2 q r : Z) :
  (0 < A)%Z -> (0 < B)%Z ->
  (A <= m2 < 2 * A)%Z -> (2 * B * A <= m1' < 4 * B * A)%Z ->
  m1' = (m2 * q + r)%Z -> (0 <= r < m2)%Z ->
  (B <= q < 4 * B)%Z.
Proof.
  intros HA HB Hm2 Hm1 Heq Hr. split.
  - destruct (Z_lt_le_dec q B) as [Hlt | Hge]; [| exact Hge]. exfalso.
    assert (m2 * (q + 1) <= m2 * B)%Z by (apply Z.mul_le_mono_nonneg_l; lia).
    assert (m2 * B < 2 * A * B)%Z by (apply Z.mul_lt_mono_pos_r; lia).
    lia.
  - destruct (Z_lt_le_dec q (4 * B)) as [Hlt | Hge]; [exact Hlt |]. exfalso.
    assert (m2 * (4 * B) <= m2 * q)%Z by (apply Z.mul_le_mono_nonneg_l; lia).
    assert (A * (4 * B) <= m2 * (4 * B))%Z by (apply Z.mul_le_mono_nonneg_r; lia).
    lia.
Qed.

Lemma div_normal (m1 m2 : positive) (e1 e2 : Z) :
  let delta := (Z.pos (digits2_pos m1) + e1 - (Z.pos (digits2_pos m2) + e2))%Z in
  (-1021 <= delta <= 1022)%Z ->
  exists (m : positive) (e : Z),
    SFdiv prec emax (S754_finite false m1 e1) (S754_finite false m2 e2)
      = S754_finite false m e /\
    Z.pos (digits2_pos m) = 53%Z /\
    (delta - 53 <= e <= delta - 51)%Z /\
    V m e * V m2 e2 <= (1 + u) * V m1 e1 /\
    (1 - u) * V m1 e1 <= V m e * V m2 e2.
Proof.
  intros delta Hdelta.
  set (d1 := Z.pos (digits2_pos m1)) in *. set (d2 := Z.pos (digits2_pos m2)) in *.
  assert (Hd1 : (1 <= d1)%Z) by (unfold d1; lia).
  assert (Hd2 : (1 <= d2)%Z) by (unfold d2; lia).
  simpl SFdiv. unfold SFdiv_core_binary.
  change (Zdigits2 (Z.pos m1)) with d1. change (Zdigits2 (Z.pos m2)) with d2.
  fold delta. rewrite (fexp_normal delta) by lia.
  set (e' := Z.min (delta - 53) (e1 - e2)).
  set (s := (e1 - e2 - e')%Z).
  assert (Hs : (0 <= s)%Z) by (unfold s, e'; lia).
  set (K := (d1 + s - d2)%Z).
  assert (HK : (53 <= K)%Z) by (unfold K, s, e', delta; lia).
  set (m' := match s with
             | 0%Z => Z.pos m1
             | Z.pos _ => Z.shiftl (Z.pos m1) s
             | Z.neg _ => 0%Z
             end).
  assert (Hm' : m' = (Z.pos m1 * 2 ^ s)%Z).
  { unfold m'. destruct s as [| p | p] eqn:Es; [lia | | lia].
    apply Z.shiftl_mul_pow2. lia. }
  pose proof (Z_div_mod m' (Z.pos m2) ltac:(lia)) as Hdm.
  destruct (Z.div_eucl m' (Z.pos m2)) as [q r]. destruct Hdm as [Heq Hr].
  pose proof (digits2_bounds m1) as Hb1. pose proof (digits2_bounds m2) as Hb2.
  fold d1 in Hb1. fold d2 in Hb2.
  assert (Hq : (2 ^ (K - 1) <= q < 2 ^ (K + 1))%Z).
  { assert (HA : (0 < 2 ^ (d2 - 1))%Z) by (apply Z.pow_pos_nonneg; lia).
    assert (HB : (0 < 2 ^ (K - 1))%Z) by (apply Z.pow_pos_nonneg; lia).
    assert (HS : (0 < 2 ^ s)%Z) by (apply Z.pow_pos_nonneg; lia).
    replace (2 ^ (K + 1))%Z with (4 * 2 ^ (K - 1))%Z
      by (replace (K + 1)%Z with (2 + (K - 1))%Z by ring;
          rewrite Z.pow_add_r by lia; reflexivity).
    apply (quotient_bounds (2 ^ (d2 - 1)) (2 ^ (K - 1)) m' (Z.pos m2) q r);
      try assumption.
    - replace d2 with (1 + (d2 - 1))%Z in Hb2 at 2 by ring.
      rewrite Z.pow_add_r in Hb2 by lia. change (2 ^ 1)%Z with 2%Z in Hb2. lia.
    - rewrite Hm'.
      assert (E1 : (2 * 2 ^ (K - 1) * 2 ^ (d2 - 1) = 2 ^ (d1 - 1) * 2 ^ s)%Z).
      { rewrite <- (Z.pow_add_r 2 (d1 - 1) s) by lia.
        replace (d1 - 1 + s)%Z with (1 + ((K - 1) + (d2 - 1)))%Z by (unfold K; lia).
        rewrite !Z.pow_add_r by lia. change (2 ^ 1)%Z with 2%Z. ring. }
      assert (E2 : (4 * 2 ^ (K - 1) * 2 ^ (d2 - 1) = 2 ^ d1 * 2 ^ s)%Z).
      { replace d1 with (1 + (d1 - 1))%Z at 1 by ring.
        rewrite (Z.pow_add_r 2 1) by lia. change (2 ^ 1)%Z with 2%Z. lia. }
      rewrite E1, E2. split.
      + apply Z.mul_le_mono_nonneg_r; lia.
      + apply Z.mul_lt_mono_pos_r; lia. }
  assert (Hqpos : (0 < q)%Z).
  { assert (0 < 2 ^ (K - 1))%Z by (apply Z.pow_pos_nonneg; lia). lia. }
  destruct q as [| pq | pq]; [lia | | lia].
  pose proof (digits2_range pq (K - 1) (K + 1) ltac:(lia) Hq) as Hdq.
  set (x := inject_Z (Z.pos m1) * bpow (e1 - e2) * / inject_Z (Z.pos m2)).
  assert (HM2 : 0 < inject_Z (Z.pos m2))
    by (change 0 with (inject_Z 0); rewrite <- Zlt_Qlt; lia).
  assert (Hinv : / inject_Z (Z.pos m2) * inject_Z (Z.pos m2) == 1)
    by (rewrite Qmult_comm; apply Qmult_inv_r; lra).
  assert (Hloc : located (bpow (- e') * x) (Z.pos pq) (new_location (Z.pos m2) r)).
  { apply new_location_located; [lia | exact Hr |].
    rewrite <- Heq, Hm', inject_Z_mult, <- bpow_inject by lia. unfold x.
    transitivity (inject_Z (Z.pos m1) * (bpow (- e') * bpow (e1 - e2)) *
                  (/ inject_Z (Z.pos m2) * inject_Z (Z.pos m2))); [ring |].
    rewrite Hinv, <- bpow_add. replace (- e' + (e1 - e2))%Z with s by (unfold s; ring).
    ring. }
  destruct (round_aux_relative x pq e' (new_location (Z.pos m2) r)
              ltac:(lia) ltac:(unfold K, s in Hdq; lia) ltac:(unfold K, s in Hdq; lia) Hloc)
    as (m & e & Hr' & Hdm & Hre & Hup & Hdn & _).
  exists m, e. rewrite Hr'.
  split; [reflexivity |]. split; [exact Hdm |].
  split; [unfold K, s in Hdq; lia |].
  assert (Hxv : x * V m2 e2 == V m1 e1).
  { unfold x, V.
    transitivity (inject_Z (Z.pos m1) * (bpow (e1 - e2) * bpow e2) *
                  (/ inject_Z (Z.pos m2) * inject_Z (Z.pos m2))); [ring |].
    rewrite Hinv, <- bpow_add. replace (e1 - e2 + e2)%Z with e1 by ring. ring. }
  pose proof (V_pos m2 e2) as Hv2.
  change (inject_Z (Z.pos m) * bpow e) with (V m e) in Hup, Hdn.
  rewrite <- Hxv. split.
  - assert (0 <= V m2 e2 * ((1 + u) * x - V m e)) by (apply Qmult_le_0_compat; lra).
    lra.
  - assert (0 <= V m2 e2 * (V m e - (1 - u) * x)) by (apply Qmult_le_0_compat; lra).
    lra.
Qed.

(** *** Integers below [2^53] convert exactly *)

Lemma iter_xO_pow2 (n k : positive) :
  Z.pos (Pos.iter xO n k) = (Z.pos n * 2 ^ Z.pos k)%Z.
Proof.
  induction k as [| k IH] using Pos.peano_ind.
  - simpl. lia.
  - rewrite Pos.iter_succ, Pos2Z.inj_xO, IH, Pos2Z.inj_succ, Z.pow_succ_r by lia.
    ring.
Qed.

Lemma Z2SF_exact (n : positive) :
  (Z.pos n < 9007199254740992)%Z ->
  exists (m : positive) (e : Z),
    Z2SF (Z.pos n) = S754_finite false m e /\
    Z.pos (digits2_pos m) = 53%Z /\
    e = (Z.pos (digits2_pos n) - 53)%Z /\
    V m e == inject_Z (Z.pos n).
Proof.
  intros Hn. set (d := Z.pos (digits2_pos n)).
  pose proof (digits2_bounds n) as Hb. fold d in Hb.
  assert (Hd : (1 <= d <= 53)%Z).
  { split; [unfold d; lia |].
    destruct (Z_lt_le_dec 53 d) as [Hlt | Hle]; [| exact Hle].
    assert (2 ^ 53 <= 2 ^ (d - 1))%Z by (apply Z.pow_le_mono_r; lia).
    change (2 ^ 53)%Z with 9007199254740992%Z in *. lia. }
  unfold Z2SF, binary_normalize, binary_round.
  fold d. rewrite (fexp_normal (d + 0)) by lia.
  assert (Hal : exists mz : positive,
             shl_align n 0 (d + 0 - 53) = (mz, (d - 53)%Z) /\
             Z.pos mz = (Z.pos n * 2 ^ (53 - d))%Z).
  { unfold shl_align. destruct (d + 0 - 53 - 0)%Z as [| p | p] eqn:Ed; [| lia |].
    - exists n. replace (d - 53)%Z with 0%Z by lia.
      replace (53 - d)%Z with 0%Z by lia. split; [reflexivity | simpl; lia].
    - exists (Pos.iter xO n p). split; [f_equal; lia |].
      rewrite iter_xO_pow2. f_equal. f_equal. lia. }
  destruct Hal as (mz & -> & Hmz).
  assert (Hpk : (0 < 2 ^ (53 - d))%Z) by (apply Z.pow_pos_nonneg; lia).
  assert (Hdz : Z.pos (digits2_pos mz) = 53%Z).
  { apply digits2_unique; [| lia]. rewrite Hmz.
    assert (E1 : (2 ^ (53 - 1) = 2 ^ (d - 1) * 2 ^ (53 - d))%Z).
    { rewrite <- Z.pow_add_r by lia. f_equal. ring. }
    assert (E2 : (2 ^ 53 = 2 ^ d * 2 ^ (53 - d))%Z).
    { rewrite <- Z.pow_add_r by lia. f_equal. ring. }
    rewrite E1, E2. split.
    - apply Z.mul_le_mono_nonneg_r; lia.
    - apply Z.mul_lt_mono_pos_r; lia. }
  assert (Hval : inject_Z (Z.pos n) == inject_Z (Z.pos mz) * bpow (d - 53)).
  { rewrite Hmz, inject_Z_mult, <- bpow_inject by lia.
    transitivity (inject_Z (Z.pos n) * (bpow (53 - d) * bpow (- (53 - d)))).
    - rewrite bpow_cancel. ring.
    - replace (- (53 - d))%Z with (d - 53)%Z by ring. ring. }
  assert (Hloc : located (bpow (- (d - 53)) * inject_Z (Z.pos n)) (Z.pos mz) loc_Exact).
  { simpl. rewrite Hval.
    transitivity (inject_Z (Z.pos mz) * (bpow (d - 53) * bpow (- (d - 53)))); [ring |].
    rewrite bpow_cancel. ring. }
  destruct (round_aux_normal (inject_Z (Z.pos n)) mz (d - 53) loc_Exact
              ltac:(lia) ltac:(lia) ltac:(lia) Hloc)
    as (m & e & Hr & Hdm & Hre & _ & _ & Hex).
  exists m, e. split; [exact Hr |]. split; [exact Hdm |].
  specialize (Hex (Z.pos mz)). rewrite Hdz in Hex, Hre.
  replace (53 + (d - 53) - 53)%Z with (d - 53)%Z in Hex, Hre by ring.
  specialize (Hex Hval).
  split; [| exact Hex].
  (* the exponent is not raised: the mantissa is unchanged *)
  destruct (Z.eq_dec e (d - 53)%Z) as [He | He]; [exact He | exfalso].
  assert (He1 : e = (d - 53 + 1)%Z) by lia.
  rewrite He1, Hval, bpow_succ in Hex.
  pose proof (bpow_pos (d - 53)) as Hp.
  assert (Hm2 : 2 * inject_Z (Z.pos m) == inject_Z (Z.pos mz)).
  { apply (Qmult_inj_r _ _ (bpow (d - 53))); [lra |]. rewrite <- Hex. ring. }
  change 2 with (inject_Z 2) in Hm2. rewrite <- inject_Z_mult, inject_Z_injective in Hm2.
  pose proof (digits2_53 m Hdm). pose proof (digits2_53 mz Hdz). lia.
Qed.

(** *** The operations on the integers and floats of the size computation *)

Lemma digits2_small (n : positive) :
  (Z.pos n <= 2 ^ 50)%Z -> (1 <= Z.pos (digits2_pos n) <= 51)%Z.
Proof.
  intros Hn. split; [lia |].
  apply (digits2_range n 0 51); [lia |]. change (2 ^ 51)%Z with (2 * 2 ^ 50)%Z. lia.
Qed.

Lemma of_int_exact (n : Z) :
  (0 < n <= 2 ^ 50)%Z ->
  exists (m : positive) (e : Z),
    of_int n = OK (S754_finite false m e) /\
    Z.pos (digits2_pos m) = 53%Z /\ (-52 <= e <= -2)%Z /\
    V m e == inject_Z n.
Proof.
  intros [Hn0 Hn1]. destruct n as [| p | p]; try lia.
  pose proof (digits2_small p Hn1) as Hd.
  destruct (Z2SF_exact p) as (m & e & Hz & Hdm & He & Hv).
  { change (2 ^ 50)%Z with 1125899906842624%Z in Hn1. lia. }
  exists m, e. unfold of_int. rewrite Hz. repeat split; try assumption; lia.
Qed.

Lemma int_truediv_normal (a b : Z) :
  (0 < a <= 2 ^ 50)%Z -> (0 < b <= 2 ^ 50)%Z ->
  exists (m : positive) (e : Z),
    int_truediv a b = OK (S754_finite false m e) /\
    Z.pos (digits2_pos m) = 53%Z /\ (-103 <= e <= -1)%Z /\
    V m e * inject_Z b <= (1 + u) * inject_Z a /\
    (1 - u) * inject_Z a <= V m e * inject_Z b.
Proof.
  intros [Ha0 Ha1] [Hb0 Hb1].
  destruct a as [| pa | pa]; try lia. destruct b as [| pb | pb]; try lia.
  pose proof (digits2_small pa Ha1) as Hda. pose proof (digits2_small pb Hb1) as Hdb.
  destruct (div_normal pa pb 0 0 ltac:(lia)) as (m & e & Hdiv & Hdm & He & Hup & Hdn).
  exists m, e. unfold int_truediv.
  change (Z.pos pa <? 0)%Z with false. change (Z.pos pb <? 0)%Z with false.
  change (Z.to_pos (Z.abs (Z.pos pa))) with pa.
  change (Z.to_pos (Z.abs (Z.pos pb))) with pb.
  rewrite Hdiv.
  assert (Hva : V pa 0 == inject_Z (Z.pos pa)) by (unfold V; rewrite bpow_0; ring).
  assert (Hvb : V pb 0 == inject_Z (Z.pos pb)) by (unfold V; rewrite bpow_0; ring).
  rewrite Hva, Hvb in *.
  repeat split; try assumption; lia.
Qed.

Lemma truediv_normal (m1 m2 : positive) (e1 e2 : Z) :
  Z.pos (digits2_pos m1) = 53%Z -> Z.pos (digits2_pos m2) = 53%Z ->
  (-1021 <= e1 - e2 <= 1022)%Z ->
  exists (m : positive) (e : Z),
    truediv (S754_finite false m1 e1) (S754_finite false m2 e2)
      = OK (S754_finite false m e) /\
    Z.pos (digits2_pos m) = 53%Z /\
    (e1 - e2 - 53 <= e <= e1 - e2 - 51)%Z /\
    V m e * V m2 e2 <= (1 + u) * V m1 e1 /\
    (1 - u) * V m1 e1 <= V m e * V m2 e2.
Proof.
  intros Hd1 Hd2 He.
  destruct (div_normal m1 m2 e1 e2 ltac:(lia)) as (m & e & Hdiv & Hdm & Hre & Hup & Hdn).
  exists m, e. unfold truediv. simpl is_zero. cbv iota. rewrite Hdiv.
  repeat split; try assumption; lia.
Qed.

Lemma two_is_2 : Z2SF 2 = S754_finite false 4503599627370496 (-51).
Proof. reflexivity. Qed.

Lemma half_is_half : decimal 5 1 = S754_finite false 4503599627370496 (-53).
Proof. reflexivity. Qed.

Lemma V_two : V 4503599627370496 (-51) == 2.
Proof. reflexivity. Qed.

Lemma V_half : V 4503599627370496 (-53) == 1 # 2.
Proof. reflexivity. Qed.

End Rounding.

(** ** The size computation *)

Section SizeBounds.
Import PyFloat Rounding.
Local Open Scope Q_scope.

(** What the floats of [image_to_ascii_size] are once the aspect ratio is
    a normal float of moderate size and the bounds are between 1 and
    [2^50]: every operation stays in the normal range, so no step raises,
    and each rounded result is within a factor [1 + u] of the exact one. *)
Lemma size_steps (iw ih mw mh : Z) (ma : positive) (ea : Z) :
  int_truediv iw ih = OK (S754_finite false ma ea) ->
  Z.pos (digits2_pos ma) = 53%Z -> (-103 <= ea <= -1)%Z ->
  (0 < mw <= 2 ^ 50)%Z -> (0 < mh <= 2 ^ 50)%Z ->
  exists (P2 Q2 : Q) (wbh hbw : Z),
    image_to_ascii_size iw ih mw mh =
      (if (wbh <=? mw)%Z then OK (wbh, mh) else OK (mw, hbw)) /\
    (0 <= wbh)%Z /\ (0 <= hbw)%Z /\
    inject_Z wbh <= P2 /\
    P2 <= (1 + u) * (1 + u) * 2 * (inject_Z mh * V ma ea) /\
    inject_Z hbw <= Q2 /\
    Q2 * V ma ea <= (1 + u) * (1 + u) * (1 # 2) * inject_Z mw.
Proof.
  intros Ea Hda Hea Hmw Hmh.
  destruct (of_int_exact mh Hmh) as (mH & eH & EH & HdH & HeH & HvH).
  destruct (of_int_exact mw Hmw) as (mW & eW & EW & HdW & HeW & HvW).
  destruct (mul_normal mH ma eH ea HdH Hda ltac:(lia))
    as (mp & ep & Ep & Hdp & Hep & Hpup & _).
  destruct (mul_normal mp 4503599627370496 ep (-51) Hdp eq_refl ltac:(lia))
    as (mp2 & ep2 & Ep2 & Hdp2 & Hep2 & Hp2up & _).
  destruct (to_int_floor mp2 ep2) as (Ewbh & Hwlo & _).
  destruct (truediv_normal mW ma eW ea HdW Hda ltac:(lia))
    as (mq & eq & Eq & Hdq & Heq & Hqup & _).
  destruct (mul_normal mq 4503599627370496 eq (-53) Hdq eq_refl ltac:(lia))
    as (mq2 & eq2 & Eq2 & Hdq2 & Heq2 & Hq2up & _).
  destruct (to_int_floor mq2 eq2) as (Ehbw & Hhlo & _).
  exists (V mp2 ep2), (V mq2 eq2),
    (Z.shiftl (Z.pos mp2) ep2), (Z.shiftl (Z.pos mq2) eq2).
  split.
  { unfold image_to_ascii_size.
    rewrite Ea. cbn [bind]. rewrite EH. cbn [bind].
    rewrite Ep, two_is_2, Ep2, Ewbh. cbn [bind].
    rewrite EW. cbn [bind]. rewrite Eq. cbn [bind].
    rewrite half_is_half, Eq2, Ehbw. cbn [bind]. reflexivity. }
  split; [apply Z.shiftl_nonneg; lia |].
  split; [apply Z.shiftl_nonneg; lia |].
  pose proof (V_pos ma ea) as HA. pose proof (V_pos mp ep) as HP.
  pose proof (V_pos mq eq) as HQ.
  rewrite V_two in Hp2up. rewrite V_half in Hq2up. rewrite HvH in Hpup.
  rewrite HvW in Hqup.
  split; [exact Hwlo |]. split; [| split; [exact Hhlo |]].
  - assert (0 <= (1 + u) * 2 * ((1 + u) * (inject_Z mh * V ma ea) - V mp ep)).
    { unfold u in *. apply Qmult_le_0_compat; lra. }
    unfold u in *. lra.
  - assert (H1 : 0 <= V ma ea * ((1 + u) * (V mq eq * (1 # 2)) - V mq2 eq2)).
    { unfold u in *. apply Qmult_le_0_compat; lra. }
    unfold u in *. lra.
Qed.

(** C1 (amended): for positive arguments up to [2^50] the size computation
    returns a grid whose width and height are between 0 and the bounds. *)
Theorem size_within_bounds (iw ih mw mh : Z) :
  (0 < iw <= 2 ^ 50)%Z -> (0 < ih <= 2 ^ 50)%Z ->
  (0 < mw <= 2 ^ 50)%Z -> (0 < mh <= 2 ^ 50)%Z ->
  exists w h : Z,
    image_to_ascii_size iw ih mw mh = OK (w, h) /\
    (0 <= w <= mw)%Z /\ (0 <= h <= mh)%Z.
Proof.
  intros Hiw Hih Hmw Hmh.
  destruct (int_truediv_normal iw ih Hiw Hih) as (ma & ea & Ea & Hda & Hea & _).
  destruct (size_steps iw ih mw mh ma ea Ea Hda Hea Hmw Hmh)
    as (P2 & Q2 & wbh & hbw & E & Hw0 & Hh0 & Hw & HP2 & Hh & HQ2).
  pose proof (V_pos ma ea) as HA. set (A := V ma ea) in *.
  rewrite E. destruct (Z.leb_spec wbh mw) as [Hle | Hgt].
  - exists wbh, mh. split; [reflexivity |]. lia.
  - exists mw, hbw. split; [reflexivity |]. split; [lia |]. split; [exact Hh0 |].
    destruct (Z_le_gt_dec hbw mh) as [Hok | Hbad]; [exact Hok | exfalso].
    assert (HW1 : inject_Z mw + 1 <= inject_Z wbh).
    { change 1 with (inject_Z 1). rewrite <- inject_Z_plus, <- Zle_Qle. lia. }
    assert (HH1 : inject_Z mh + 1 <= inject_Z hbw).
    { change 1 with (inject_Z 1). rewrite <- inject_Z_plus, <- Zle_Qle. lia. }
    assert (HWb : inject_Z mw <= inject_Z (2 ^ 50)) by (rewrite <- Zle_Qle; lia).
    change (inject_Z (2 ^ 50)) with 1125899906842624 in HWb.
    assert (HWp : 0 < inject_Z mw)
      by (change 0 with (inject_Z 0); rewrite <- Zlt_Qlt; lia).
    assert (Hprod : 0 <= A * (Q2 - (inject_Z mh + 1))).
    { apply Qmult_le_0_compat; lra. }
    unfold u in *. lra.
Qed.

End SizeBounds.

(** C1 as worded fails in two ways: a 1 x 1000 source in an 80 x 24
    terminal gets width [int(24 * 0.001 * 2) = 0], and with bounds near
    [2^60] the conversion of the bounds to floats rounds upward, so the
    height exceeds its bound. *)
Lemma size_not_positive_or_bounded :
  image_to_ascii_size 1 1000 80 24 = OK (0, 24) /\
  image_to_ascii_size 1 1 (2 ^ 61 - 1) (2 ^ 60 - 1) = OK (2 ^ 61 - 1, 2 ^ 60) /\
  ~ (forall iw ih mw mh w h : Z,
       0 < iw -> 0 < ih -> 0 < mw -> 0 < mh ->
       image_to_ascii_size iw ih mw mh = OK (w, h) ->
       1 <= w <= mw /\ 1 <= h <= mh).
Proof.
  split; [vm_compute; reflexivity |]. split; [vm_compute; reflexivity |].
  intros Hall.
  assert (E : image_to_ascii_size 1 1000 80 24 = OK (0, 24)) by (vm_compute; reflexivity).
  specialize (Hall 1 1000 80 24 0 24 ltac:(lia) ltac:(lia) ltac:(lia) ltac:(lia) E).
  lia.
Qed.

Lemma size_within_bounds_witness :
  (0 < 200 <= 2 ^ 50) /\ (0 < 100 <= 2 ^ 50) /\
  (0 < 120 <= 2 ^ 50) /\ (0 < 40 <= 2 ^ 50) /\
  exists w h : Z,
    image_to_ascii_size 200 100 120 40 = OK (w, h) /\
    0 <= w <= 120 /\ 0 <= h <= 40.
Proof.
  split; [lia |]. split; [lia |]. split; [lia |]. split; [lia |].
  apply (size_within_bounds 200 100 120 40); lia.
Defined.

(** ** The negotiation as the specification words it *)

Section Negotiation.
Import PyFloat SignFacts.




(** The arithmetic is that of the program: for a 1 x 49 source and a
    height bound of 49 the exact value of [49 * (1 / 49) * 2] is 2, but the
    double nearest to 1/49, times 49, is just below 1, and both the
    program and the negotiation give the width 1. *)
Remark rounding_is_visible :
  image_to_ascii_size 1 49 80 49 = OK (1, 49) /\
  negotiate 1 49 80 49 = OK (1, 49).
Proof. split; vm_compute; reflexivity. Qed.


End Negotiation.

(** ** A source of height zero *)

(** C7 as worded fails: for a 10 x 0 source the division of line 25 is
    performed and raises [ZeroDivisionError]. *)
Lemma zero_height_raises_zero_division :
  image_to_ascii_size 10 0 80 24 = Raise ZeroDivisionError.
Proof. reflexivity. Qed.

(** C7 (amended): with a source height of 0 the size computation raises
    [ZeroDivisionError], and [image_to_ascii] propagates it. *)
Theorem zero_height_propagates {Image} `{PIL Image} (image : Image)
  (max_width max_height : Z) :
  height image = 0 ->
  image_to_ascii_size (width image) (height image) max_width max_height
    = Raise ZeroDivisionError /\
  image_to_ascii image max_width max_height = Raise ZeroDivisionError.
Proof.
  intros Hh. unfold image_to_ascii, ascii_rows. rewrite Hh.
  split; reflexivity.
Qed.

Lemma zero_height_propagates_witness :
  let image := {| flat_width := 10; flat_height := 0;
                  flat_info := ∅; flat_level := 255 |} in
  height image = 0 /\
  image_to_ascii_size (width image) (height image) 80 24 = Raise ZeroDivisionError /\
  image_to_ascii image 80 24 = Raise ZeroDivisionError.
Proof.
  intros image. split; [reflexivity |].
  apply (zero_height_propagates image 80 24). reflexivity.
Defined.

(** ** The rows of a frame *)

Lemma append_cons (c : ascii) (s1 s2 : string) :
  (String c s1 ++ s2)%string = String c (s1 ++ s2)%string.
Proof. reflexivity. Qed.



Lemma length_append (s1 s2 : string) :
  String.length (s1 ++ s2)%string = (String.length s1 + String.length s2)%nat.
Proof.
  induction s1 as [| c s1 IH]; [reflexivity |].
  rewrite append_cons. simpl. now rewrite IH.
Qed.


Lemma length_range (n : Z) : length (range n) = Z.to_nat n.
Proof. unfold range. now rewrite length_map, length_seq. Qed.

Section Rows.
Context {Image : Type} `{PIL Image}.

Lemma for_x_length (image : Image) (y : Z) (xs : list Z) (line s : string) :
  for_x image y xs line = OK s ->
  String.length s = (String.length line + length xs)%nat.
Proof.
  revert line. induction xs as [| x xs IH]; intros line; simpl.
  - intros [= <-]. lia.
  - destruct (str_index ascii_chars (char_index (getpixel image (x, y))))
      as [c | e]; cbn [bind]; [| discriminate].
    intros Hs. apply IH in Hs. rewrite Hs, length_append. simpl. lia.
Qed.

Lemma for_y_lengths (image : Image) (w : Z) (ys : list Z) (art rows : list string) :
  for_y image w ys art = OK rows ->
  Forall (fun r => String.length r = Z.to_nat w) art ->
  Forall (fun r => String.length r = Z.to_nat w) rows.
Proof.
  revert art. induction ys as [| y ys IH]; intros art; simpl.
  - intros [= <-] Hart. exact Hart.
  - destruct (for_x image y (range w) EmptyString) as [line | e] eqn:El;
      cbn [bind]; [| discriminate].
    intros Hr Hart. apply (IH _ Hr). apply Forall_app. split; [exact Hart |].
    constructor; [| constructor].
    apply for_x_length in El. rewrite El, length_range. reflexivity.
Qed.



End Rows.


(** ** Uniform frames *)

Section Uniform.
Context {Image : Type} `{PIL Image}.




End Uniform.


(** The frame of the example: two rows of four blanks. *)
Example uniform_frame_example :
  image_to_ascii {| flat_width := 8; flat_height := 8;
                    flat_info := ∅; flat_level := 255 |} 4 3
  = OK ("    " ++ newline ++ "    ")%string.
Proof. vm_compute. reflexivity. Qed.

(** ** The command line *)

Section Main.
Context {Image : Type} `{PIL Image}.



(** Where [main] ends the process before playback, the status is 1. *)
Lemma main_exit_status (args : Args) (world : World Image) (code : Z) :
  snd (main args world) = SysExit code -> code = 1.
Proof.
  unfold main. destruct (path_exists world); cbn [negb].
  - destruct (get_terminal_size (terminal world)) as [tw th].
    unfold choose_max_width.
    destruct (truthy (arg_width args)).
    + destruct (arg_width args) as [n |].
      * destruct (n <=? 0); cbn [snd]; [congruence |].
        unfold extract_gif_frames. destruct (opened world) as [fs |];
          [destruct (for_frame fs [] []) as [[? ?] | ?] |]; cbn [snd]; congruence.
      * unfold extract_gif_frames. destruct (opened world) as [fs |];
          [destruct (for_frame fs [] []) as [[? ?] | ?] |]; cbn [snd]; congruence.
    + unfold extract_gif_frames. destruct (opened world) as [fs |];
        [destruct (for_frame fs [] []) as [[? ?] | ?] |]; cbn [snd]; congruence.
  - cbn [snd]. congruence.
Qed.


(** An explicit width of 0 is false as a truth value, so [main] treats it
    as an absent argument. *)
Lemma width_zero_as_absent (args : Args) (world : World Image) :
  arg_width args = Some 0 ->
  main args world =
    main {| gif_file := gif_file args; arg_width := None;
            arg_speed := arg_speed args |} world.
Proof.
  intros Hw. unfold main. cbn [gif_file arg_width arg_speed]. rewrite Hw.
  reflexivity.
Qed.

End Main.


(** C6: the command line [ascii.py a.gif 0] on an 80 x 24 terminal is not
    rejected: no width error is printed, and [main] goes on to playback with
    the default bound of 78 columns instead of ending with status 1. *)
Theorem main_width_zero_plays :
  let frame := {| flat_width := 8; flat_height := 8;
                  flat_info := ∅; flat_level := 255 |} in
  let args := {| gif_file := "a.gif"; arg_width := Some 0;
                 arg_speed := PyFloat.decimal 5 1 |} in
  let world := {| path_exists := true; terminal := Some (80, 24);
                  opened := Some [frame] |} in
  main args world =
    ([Stdout (Loading "a.gif"); Stdout (TerminalSize 80 24);
      Stdout (MaxDimensions 78 20); Stdout (Found 1)],
     Returns {| pb_frames := [frame];
                pb_durations := [PyFloat.decimal 1 1];
                pb_max_width := 78;
                pb_max_height := 20;
                pb_speed := PyFloat.decimal 5 1 |}) /\
  snd (main {| gif_file := "a.gif"; arg_width := Some (-1);
               arg_speed := PyFloat.decimal 5 1 |} world) = SysExit 1.
Proof. split; vm_compute; reflexivity. Qed.

(** ** Frame extraction *)

Section Extraction.
Context {Image : Type} `{PIL Image}.

Lemma for_frame_spec (fs frames frames' : list Image)
  (durations durations' : list PyFloat.float) :
  for_frame fs frames durations = OK (frames', durations') ->
  exists secs : list PyFloat.float,
    frames' = frames ++ map (fun f => convert f "RGB") fs /\
    durations' = durations ++ secs /\
    Forall2 (fun f s => frame_seconds f = OK s) fs secs.
Proof.
  revert frames durations.
  induction fs as [| frame rest IH]; intros frames durations; cbn [for_frame].
  - intros [= <- <-]. exists []. rewrite !app_nil_r. repeat split. constructor.
  - destruct (PyFloat.of_int _) as [d | e] eqn:Ed; cbn [bind]; [| discriminate].
    destruct (PyFloat.truediv d (PyFloat.Z2SF 1000)) as [s | e] eqn:Es; cbn [bind]; [| discriminate].
    intros Hrest. apply IH in Hrest as (secs & -> & -> & Hall).
    exists (s :: secs). rewrite <- !app_assoc. repeat split.
    constructor; [| exact Hall].
    unfold frame_seconds. rewrite Ed. cbn [bind]. exact Es.
Qed.

Lemma for_frame_total (fs frames : list Image) (durations : list PyFloat.float) :
  Forall (fun f => exists s, frame_seconds f = OK s) fs ->
  exists r, for_frame fs frames durations = OK r.
Proof.
  intros Hall. revert frames durations.
  induction Hall as [| frame rest (s & Hs) _ IH]; intros frames durations;
    cbn [for_frame].
  - eexists; reflexivity.
  - unfold frame_seconds in Hs.
    destruct (PyFloat.of_int _) as [d | e]; cbn [bind] in Hs |- *; [| discriminate].
    rewrite Hs. cbn [bind]. apply IH.
Qed.

Lemma frame_seconds_default (frame : Image) :
  info frame !! "duration"%string = None ->
  frame_seconds frame = OK (PyFloat.decimal 1 1).
Proof. intros Hnone. unfold frame_seconds. rewrite Hnone. reflexivity. Qed.

Lemma frame_seconds_total (frame : Image) :
  (forall d, info frame !! "duration"%string = Some d -> 0 <= d < 2 ^ 53) ->
  exists s, frame_seconds frame = OK s.
Proof.
  intros Hd. unfold frame_seconds.
  destruct (info frame !! "duration"%string) as [d |] eqn:Ei;
    change (default 100 (Some d)) with d || change (default 100 (@None Z)) with 100.
  - specialize (Hd d eq_refl).
    assert (Hof : exists f, PyFloat.of_int d = OK f).
    { destruct d as [| p | p]; [eexists; reflexivity | | lia].
      destruct (Rounding.Z2SF_exact p) as (m & e & Hz & _).
      { change (2 ^ 53) with 9007199254740992 in Hd. lia. }
      exists (S754_finite false m e). unfold PyFloat.of_int. now rewrite Hz. }
    destruct Hof as (f & ->). cbn [bind]. eexists; reflexivity.
  - eexists; reflexivity.
Qed.

(** C9: when the frames are read, [extract_gif_frames] returns one
    duration per frame, in the order of the frames, and a frame without a
    [duration] entry gets the float [0.1] (100 ms divided by 1000); it
    returns whenever the stored durations are integers from 0 to [2^53]. *)
Theorem durations_match_frames (fs : list Image) :
  (forall frames durations,
     extract_gif_frames (Some fs) = Returns (frames, durations) ->
     length durations = length frames /\
     length frames = length fs /\
     forall (i : nat) (frame : Image),
       fs !! i = Some frame ->
       frames !! i = Some (convert frame "RGB") /\
       (exists s, durations !! i = Some s /\ frame_seconds frame = OK s) /\
       (info frame !! "duration"%string = None ->
        durations !! i = Some (PyFloat.decimal 1 1))) /\
  ((forall frame d, In frame fs -> info frame !! "duration"%string = Some d ->
                    0 <= d < 2 ^ 53) ->
   exists frames durations,
     extract_gif_frames (Some fs) = Returns (frames, durations)) /\
  PyFloat.decimal 1 1 = S754_finite false 7205759403792794 (-56).
Proof.
  split; [| split; [| reflexivity]].
  - intros frames durations. unfold extract_gif_frames.
    destruct (for_frame fs [] []) as [[fr du] | e] eqn:Ef; [| discriminate].
    intros [= <- <-].
    apply for_frame_spec in Ef as (secs & -> & -> & Hall). cbn [app].
    pose proof (Forall2_length _ _ _ Hall) as Hlen.
    split; [now rewrite length_map |]. split; [now rewrite length_map |].
    intros i frame Hi.
    split; [now rewrite list_lookup_fmap, Hi |].
    destruct (Forall2_lookup_l _ _ _ _ _ Hall Hi) as (s & Hs & Hsec).
    split; [exists s; split; assumption |].
    intros Hnone. rewrite (frame_seconds_default frame Hnone) in Hsec. congruence.
  - intros Hd. unfold extract_gif_frames.
    destruct (for_frame_total fs [] []) as ([fr du] & ->).
    + apply Forall_forall. intros frame Hin. apply frame_seconds_total.
      intros d. apply Hd. now apply list_elem_of_In.
    + eexists _, _. reflexivity.
Qed.

End Extraction.

Lemma durations_match_frames_witness :
  let f1 := {| flat_width := 8; flat_height := 8;
               flat_info := ∅; flat_level := 255 |} in
  let f2 := {| flat_width := 8; flat_height := 8;
               flat_info := {[ "duration"%string := 50 ]}; flat_level := 0 |} in
  (forall frame d, In frame [f1; f2] -> info frame !! "duration"%string = Some d ->
                   0 <= d < 2 ^ 53) /\
  (exists frames durations,
     extract_gif_frames (Some [f1; f2]) = Returns (frames, durations)) /\
  extract_gif_frames (Some [f1; f2])
    = Returns ([f1; f2], [PyFloat.decimal 1 1; PyFloat.decimal 5 2]).
Proof.
  intros f1 f2.
  assert (Hd : forall frame d, In frame [f1; f2] ->
                 info frame !! "duration"%string = Some d -> 0 <= d < 2 ^ 53).
  { intros frame d [<- | [<- | []]] Hd; vm_compute in Hd;
      [discriminate | injection Hd as <-; lia]. }
  split; [exact Hd |]. split; [| vm_compute; reflexivity].
  apply (proj1 (proj2 (durations_match_frames [f1; f2]))). exact Hd.
Defined.

(** ** The playback loop *)

Section Playback.
Implicit Types (pairs : list (string * PyFloat.float)) (speed : PyFloat.float).

Lemma sleeps_app (evs1 evs2 : list event) :
  sleeps (evs1 ++ evs2) = sleeps evs1 ++ sleeps evs2.
Proof. unfold sleeps. apply flat_map_app. Qed.

Lemma sleeps_show_frame (fc : Z) (f : string) (d : PyFloat.float) speed :
  sleeps (show_frame fc f d speed) = [sleep_time d speed].
Proof. unfold show_frame, sleeps. destruct (fc =? 0); reflexivity. Qed.

Lemma sleeps_for_pairs pairs speed (fc : Z) :
  sleeps (fst (for_pairs pairs speed fc)) = map (fun p => sleep_time (snd p) speed) pairs.
Proof.
  revert fc. induction pairs as [| [f d] rest IH]; intros fc; cbn [for_pairs].
  - reflexivity.
  - specialize (IH (fc + 1)).
    destruct (for_pairs rest speed (fc + 1)) as [evs fc'].
    cbn [fst] in *. rewrite sleeps_app, IH, sleeps_show_frame. reflexivity.
Qed.

Lemma sleeps_while_true (passes : nat) pairs speed (fc : Z) :
  sleeps (while_true passes pairs speed fc)
  = concat (repeat (map (fun p => sleep_time (snd p) speed) pairs) passes).
Proof.
  revert fc. induction passes as [| k IH]; intros fc; cbn [while_true].
  - reflexivity.
  - pose proof (sleeps_for_pairs pairs speed fc) as Hp.
    destruct (for_pairs pairs speed fc) as [evs fc'].
    cbn [fst] in Hp. rewrite sleeps_app, Hp, IH. reflexivity.
Qed.

(** C4: every interval slept is [max(0.03, duration * speed)]; durations
    0.1, 0.05, 0.2 are slept unchanged at speed 1.0, and at speed 0.1 all
    three, so in particular the first two, are raised to 0.03. *)
Theorem sleep_intervals :
  (forall (passes : nat) pairs speed,
     sleeps (while_true passes pairs speed 0)
     = concat (repeat
                 (map (fun p => PyFloat.max (PyFloat.decimal 3 2)
                                  (PyFloat.mul (snd p) speed)) pairs)
                 passes)) /\
  (let durations := [PyFloat.decimal 1 1; PyFloat.decimal 5 2; PyFloat.decimal 2 1] in
   let frames := ["a"; "b"; "c"]%string in
   sleeps (while_true 1 (zip frames durations) (PyFloat.Z2SF 1) 0)
     = [PyFloat.decimal 1 1; PyFloat.decimal 5 2; PyFloat.decimal 2 1] /\
   sleeps (while_true 1 (zip frames durations) (PyFloat.decimal 1 1) 0)
     = [PyFloat.decimal 3 2; PyFloat.decimal 3 2; PyFloat.decimal 3 2]).
Proof.
  split.
  - intros passes pairs speed. apply sleeps_while_true.
  - split; vm_compute; reflexivity.
Qed.

End Playback.

Section ClearOnce.
Implicit Types (pairs : list (string * PyFloat.float)) (speed : PyFloat.float).







End ClearOnce.


(** ** Cancellation *)

Section Cancellation.
Context {Image : Type} `{PIL Image}.

Lemma convert_frames_quiet (frames : list Image) (max_width max_height i total : Z)
  (ascii_frames : list string) :
  Forall (fun ev => ev <> Stdout Stopped)
    (fst (convert_frames frames max_width max_height i total ascii_frames)).
Proof.
  revert i ascii_frames.
  induction frames as [| frame rest IH]; intros i ascii_frames; cbn [convert_frames].
  - constructor.
  - destruct (image_to_ascii frame max_width max_height) as [ascii_frame | e];
      [| constructor].
    specialize (IH (i + 1) (ascii_frames ++ [ascii_frame])).
    destruct (convert_frames rest max_width max_height (i + 1) total
                (ascii_frames ++ [ascii_frame])) as [evs r].
    cbn [fst] in *. constructor; [discriminate | exact IH].
Qed.

Lemma for_pairs_quiet (pairs : list (string * PyFloat.float))
  (speed : PyFloat.float) (fc : Z) :
  Forall (fun ev => ev <> Stdout Stopped) (fst (for_pairs pairs speed fc)).
Proof.
  revert fc. induction pairs as [| [f d] rest IH]; intros fc; cbn [for_pairs].
  - constructor.
  - specialize (IH (fc + 1)). destruct (for_pairs rest speed (fc + 1)) as [evs fc'].
    cbn [fst] in *. unfold show_frame.
    repeat (constructor; [destruct (fc =? 0); discriminate |]). exact IH.
Qed.

Lemma while_true_quiet (passes : nat) (pairs : list (string * PyFloat.float))
  (speed : PyFloat.float) (fc : Z) :
  Forall (fun ev => ev <> Stdout Stopped) (while_true passes pairs speed fc).
Proof.
  revert fc. induction passes as [| k IH]; intros fc; cbn [while_true].
  - constructor.
  - pose proof (for_pairs_quiet pairs speed fc) as Hp.
    destruct (for_pairs pairs speed fc) as [evs fc']. cbn [fst] in Hp.
    apply Forall_app. split; [exact Hp | apply IH].
Qed.

(** An interrupt during playback, after any number of events of the loop,
    prints the stopped message once, as the last output, and ends the
    process with status 0. *)
Lemma interrupt_stops_once (frames : list Image) (durations : list PyFloat.float)
  (max_width max_height : Z) (speed : PyFloat.float) (passes j : nat)
  (ascii_frames : list string) :
  snd (convert_frames frames max_width max_height 0 (Z.of_nat (length frames)) [])
    = OK ascii_frames ->
  exists before : list event,
    play_ascii_animation frames durations max_width max_height speed passes (Some j)
      = (before ++ [Stdout Stopped], Exited 0) /\
    Forall (fun ev => ev <> Stdout Stopped) before.
Proof.
  intros Hconv. unfold play_ascii_animation.
  pose proof (convert_frames_quiet frames max_width max_height 0
                (Z.of_nat (length frames)) []) as Hq.
  destruct (convert_frames frames max_width max_height 0
              (Z.of_nat (length frames)) []) as [evs r].
  cbn [fst snd] in *. subst r.
  eexists. split.
  - rewrite app_assoc. reflexivity.
  - apply Forall_app. split.
    + constructor; [discriminate |]. apply Forall_app. split; [exact Hq |].
      repeat (constructor; [discriminate |]). constructor.
    + apply Forall_take. apply while_true_quiet.
Qed.

End Cancellation.

(** * Further properties of [ascii.py] *)

(** ** The shape and the glyphs of a frame *)

Lemma length_concat_rows (n m : nat) (rows : list string) :
  length rows = n ->
  Forall (fun r => String.length r = m) rows ->
  String.length (String.concat newline rows) = (n * m + (n - 1))%nat.
Proof.
  intros Hn Hall. subst n.
  induction Hall as [| r rows Hr Hall IH]; [reflexivity |].
  destruct rows as [| r' rows'].
  - simpl. lia.
  - change (String.concat newline (r :: r' :: rows'))
      with (r ++ newline ++ String.concat newline (r' :: rows'))%string.
    rewrite !length_append, IH, Hr. simpl. lia.
Qed.



Section Shape.
Context {Image : Type} `{PIL Image}.

Lemma for_y_count (image : Image) (w : Z) (ys : list Z) (art rows : list string) :
  for_y image w ys art = OK rows -> length rows = (length art + length ys)%nat.
Proof.
  revert art. induction ys as [| y ys IH]; intros art; cbn [for_y].
  - intros [= <-]. simpl. lia.
  - destruct (for_x image y (range w) EmptyString) as [line | e];
      cbn [bind]; [| discriminate].
    intros Hr. apply IH in Hr. rewrite Hr, length_app. simpl. lia.
Qed.

(** X1: a frame that [image_to_ascii] returns is a full rectangle: as
    many rows as the computed height, each with as many characters as the
    computed width, joined by single newlines with none at the end. *)
Theorem frame_is_rectangle (image : Image) (max_width max_height : Z) (text : string) :
  image_to_ascii image max_width max_height = OK text ->
  exists (w h : Z) (rows : list string),
    image_to_ascii_size (width image) (height image) max_width max_height = OK (w, h) /\
    text = String.concat newline rows /\
    length rows = Z.to_nat h /\
    Forall (fun r => String.length r = Z.to_nat w) rows /\
    String.length text = (Z.to_nat h * Z.to_nat w + (Z.to_nat h - 1))%nat.
Proof.
  unfold image_to_ascii.
  destruct (ascii_rows image max_width max_height) as [rows | e] eqn:Er;
    cbn [bind]; [| discriminate].
  intros [= <-]. unfold ascii_rows in Er.
  destruct (image_to_ascii_size _ _ _ _) as [[w h] | e] eqn:Es;
    cbn [bind] in Er; [| discriminate].
  exists w, h, rows. split; [reflexivity |]. split; [reflexivity |].
  pose proof (for_y_count _ _ _ _ _ Er) as Hc.
  rewrite length_range in Hc. simpl in Hc.
  pose proof (for_y_lengths _ _ _ _ _ Er ltac:(constructor)) as Hl.
  split; [exact Hc |]. split; [exact Hl |].
  now apply length_concat_rows.
Qed.




End Shape.

Lemma frame_is_rectangle_witness :
  let image := {| flat_width := 8; flat_height := 8;
                  flat_info := ∅; flat_level := 255 |} in
  image_to_ascii image 4 3 = OK ("    " ++ newline ++ "    ")%string /\
  exists (w h : Z) (rows : list string),
    image_to_ascii_size (width image) (height image) 4 3 = OK (w, h) /\
    ("    " ++ newline ++ "    ")%string = String.concat newline rows /\
    length rows = Z.to_nat h /\
    Forall (fun r => String.length r = Z.to_nat w) rows /\
    String.length ("    " ++ newline ++ "    ")%string
      = (Z.to_nat h * Z.to_nat w + (Z.to_nat h - 1))%nat.
Proof.
  intros image.
  assert (E : image_to_ascii image 4 3 = OK ("    " ++ newline ++ "    ")%string)
    by (vm_compute; reflexivity).
  split; [exact E |].
  apply (frame_is_rectangle image 4 3 _ E).
Defined.


(** ** The bands of the quantiser *)

(** X3: for byte samples the clamp of line 53 never takes effect: the index
    is [sample * 10 // 256] itself, glyph [i] is drawn exactly for the
    samples with [256 i <= 10 sample < 256 (i + 1)], and each of the ten
    glyphs is drawn for some sample (the first of its band is
    [(256 i + 9) // 10]). *)
Theorem quantize_bands (sample : Z) :
  0 <= sample <= 255 ->
  char_index sample = sample * 10 / 256 /\
  (forall i : Z, char_index sample = i <-> 256 * i <= 10 * sample < 256 * (i + 1)) /\
  (forall i : Z, 0 <= i <= 9 ->
     0 <= (256 * i + 9) / 10 <= 255 /\
     char_index ((256 * i + 9) / 10) = i /\
     (0 < i -> char_index ((256 * i + 9) / 10 - 1) = i - 1)).
Proof.
  intros Hs.
  assert (Hidx : forall s, 0 <= s <= 255 -> char_index s = s * 10 / 256).
  { intros s Hs'. rewrite char_index_eq.
    assert (s * 10 / 256 < 10) by (apply Z.div_lt_upper_bound; lia). lia. }
  assert (Hband : forall s i, 0 <= s <= 255 ->
             (char_index s = i <-> 256 * i <= 10 * s < 256 * (i + 1))).
  { intros s i Hs'. rewrite (Hidx s Hs').
    pose proof (Z.div_mod (s * 10) 256 ltac:(lia)) as Hdm.
    pose proof (Z.mod_pos_bound (s * 10) 256 ltac:(lia)) as Hmod.
    split; [intros <-; lia | intros Hi; nia]. }
  split; [now apply Hidx |]. split; [intros i; now apply Hband |].
  intros i Hi.
  pose proof (Z.div_mod (256 * i + 9) 10 ltac:(lia)) as Hdm.
  pose proof (Z.mod_pos_bound (256 * i + 9) 10 ltac:(lia)) as Hmod.
  assert (Hr : 0 <= (256 * i + 9) / 10 <= 255) by lia.
  split; [exact Hr |]. split.
  - apply Hband; [exact Hr | lia].
  - intros Hpos. apply Hband; lia.
Qed.

Lemma quantize_bands_witness :
  0 <= 230 <= 255 /\
  char_index 230 = 230 * 10 / 256 /\
  (forall i : Z, char_index 230 = i <-> 256 * i <= 10 * 230 < 256 * (i + 1)) /\
  (forall i : Z, 0 <= i <= 9 ->
     0 <= (256 * i + 9) / 10 <= 255 /\
     char_index ((256 * i + 9) / 10) = i /\
     (0 < i -> char_index ((256 * i + 9) / 10 - 1) = i - 1)).
Proof. split; [lia |]. apply (quantize_bands 230). lia. Defined.

(** ** The floor of the pacing *)




(** ** Conversion before playback *)

Section Precompute.
Context {Image : Type} `{PIL Image}.

Lemma progress_shift (i total : Z) (n : nat) :
  map (fun k => Stdout (Progress (i + Z.of_nat k) total)) (seq 1 (S n))
  = Stdout (Progress (i + 1) total)
      :: map (fun k => Stdout (Progress (i + 1 + Z.of_nat k) total)) (seq 1 n).
Proof.
  cbn [seq map]. f_equal. rewrite <- seq_shift, map_map.
  apply map_ext. intros k. do 2 f_equal. lia.
Qed.

(** The progress lines [first/total], ..., [(first + n - 1)/total]. *)
Lemma convert_frames_ok (frames : list Image) (ts : list string)
  (max_width max_height i total : Z) (acc : list string) :
  Forall2 (fun f t => image_to_ascii f max_width max_height = OK t) frames ts ->
  convert_frames frames max_width max_height i total acc
  = (map (fun k => Stdout (Progress (i + Z.of_nat k) total)) (seq 1 (length frames)),
     OK (acc ++ ts)).
Proof.
  intros Hall. revert i acc.
  induction Hall as [| f t frames ts Hf _ IH]; intros i acc; cbn [convert_frames].
  - now rewrite app_nil_r.
  - rewrite Hf, (IH (i + 1) (acc ++ [t])), <- app_assoc. cbn [length].
    rewrite (progress_shift i total (length frames)). reflexivity.
Qed.

Lemma convert_frames_fail (good rest : list Image) (bad : Image) (ts : list string)
  (e : exn) (max_width max_height i total : Z) (acc : list string) :
  Forall2 (fun f t => image_to_ascii f max_width max_height = OK t) good ts ->
  image_to_ascii bad max_width max_height = Raise e ->
  convert_frames (good ++ bad :: rest) max_width max_height i total acc
  = (map (fun k => Stdout (Progress (i + Z.of_nat k) total)) (seq 1 (length good)),
     Raise e).
Proof.
  intros Hall Hbad. revert i acc.
  induction Hall as [| f t good ts Hf _ IH]; intros i acc;
    cbn [app convert_frames].
  - now rewrite Hbad.
  - rewrite Hf, (IH (i + 1) (acc ++ [t])). cbn [length].
    rewrite (progress_shift i total (length good)). reflexivity.
Qed.

(** X5: when every frame converts, the run prints the heading, one
    progress line per frame counting [1/n] to [n/n], the start message,
    sleeps one second, and then plays the converted frames paired with the
    durations. *)
Theorem conversion_reports_progress (frames : list Image) (ts : list string)
  (durations : list PyFloat.float) (max_width max_height : Z)
  (speed : PyFloat.float) (passes : nat) :
  Forall2 (fun f t => image_to_ascii f max_width max_height = OK t) frames ts ->
  play_ascii_animation frames durations max_width max_height speed passes None
  = (Stdout Converting
       :: map (fun k => Stdout (Progress (Z.of_nat k) (Z.of_nat (length frames))))
            (seq 1 (length frames))
       ++ [Stdout Starting; Sleep (PyFloat.Z2SF 1)]
       ++ while_true passes (zip ts durations) speed 0,
     Running).
Proof.
  intros Hall. unfold play_ascii_animation.
  rewrite (convert_frames_ok frames ts _ _ 0 _ [] Hall). cbn [app].
  f_equal. f_equal. rewrite <- app_assoc. reflexivity.
Qed.

(** X6: when a frame fails to convert, the exception leaves the program
    before playback: the progress lines of the frames before it are all
    that is printed after the heading; nothing is shown, the screen is not
    cleared, and an interrupt handler is never reached. *)
Theorem conversion_failure_stops_before_playback (good rest : list Image)
  (bad : Image) (ts : list string) (e : exn) (durations : list PyFloat.float)
  (max_width max_height : Z) (speed : PyFloat.float) (passes : nat)
  (interrupt : option nat) :
  Forall2 (fun f t => image_to_ascii f max_width max_height = OK t) good ts ->
  image_to_ascii bad max_width max_height = Raise e ->
  let total := Z.of_nat (length (good ++ bad :: rest)) in
  play_ascii_animation (good ++ bad :: rest) durations max_width max_height
    speed passes interrupt
  = (Stdout Converting
       :: map (fun k => Stdout (Progress (Z.of_nat k) total)) (seq 1 (length good)),
     Uncaught e).
Proof.
  intros Hall Hbad total. unfold play_ascii_animation.
  rewrite (convert_frames_fail good rest bad ts e _ _ 0 _ [] Hall Hbad).
  reflexivity.
Qed.

End Precompute.

Lemma conversion_reports_progress_witness :
  let f := {| flat_width := 8; flat_height := 8; flat_info := ∅; flat_level := 255 |} in
  let t := ("    " ++ newline ++ "    ")%string in
  Forall2 (fun f t => image_to_ascii f 4 3 = OK t) [f; f] [t; t] /\
  play_ascii_animation [f; f] [PyFloat.decimal 1 1; PyFloat.decimal 1 1] 4 3
    (PyFloat.decimal 5 1) 1 None
  = (Stdout Converting
       :: map (fun k => Stdout (Progress (Z.of_nat k) (Z.of_nat (length [f; f]))))
            (seq 1 (length [f; f]))
       ++ [Stdout Starting; Sleep (PyFloat.Z2SF 1)]
       ++ while_true 1 (zip [t; t] [PyFloat.decimal 1 1; PyFloat.decimal 1 1])
            (PyFloat.decimal 5 1) 0,
     Running).
Proof.
  intros f t.
  assert (Hall : Forall2 (fun f t => image_to_ascii f 4 3 = OK t) [f; f] [t; t]).
  { repeat constructor; vm_compute; reflexivity. }
  split; [exact Hall |].
  apply (conversion_reports_progress [f; f] [t; t] _ 4 3 _ 1 Hall).
Defined.

Lemma conversion_failure_stops_before_playback_witness :
  let f := {| flat_width := 8; flat_height := 8; flat_info := ∅; flat_level := 255 |} in
  let z := {| flat_width := 8; flat_height := 0; flat_info := ∅; flat_level := 255 |} in
  let t := ("    " ++ newline ++ "    ")%string in
  Forall2 (fun f t => image_to_ascii f 4 3 = OK t) [f] [t] /\
  image_to_ascii z 4 3 = Raise ZeroDivisionError /\
  play_ascii_animation ([f] ++ z :: [f]) [] 4 3 (PyFloat.decimal 5 1) 2 (Some 5%nat)
  = (Stdout Converting
       :: map (fun k => Stdout (Progress (Z.of_nat k)
                                   (Z.of_nat (length ([f] ++ z :: [f])))))
            (seq 1 (length [f])),
     Uncaught ZeroDivisionError).
Proof.
  intros f z t.
  assert (Hall : Forall2 (fun f t => image_to_ascii f 4 3 = OK t) [f] [t]).
  { repeat constructor; vm_compute; reflexivity. }
  assert (Hbad : image_to_ascii z 4 3 = Raise ZeroDivisionError) by reflexivity.
  split; [exact Hall |]. split; [exact Hbad |].
  apply (conversion_failure_stops_before_playback [f] [f] z [t] ZeroDivisionError
           [] 4 3 (PyFloat.decimal 5 1) 2 (Some 5%nat) Hall Hbad).
Defined.

(** ** From the file to the screen *)

Lemma texts_app (evs1 evs2 : list event) : texts (evs1 ++ evs2) = texts evs1 ++ texts evs2.
Proof. unfold texts. apply flat_map_app. Qed.

Lemma texts_for_pairs (pairs : list (string * PyFloat.float)) (speed : PyFloat.float)
  (fc : Z) :
  texts (fst (for_pairs pairs speed fc)) = map fst pairs.
Proof.
  revert fc. induction pairs as [| [f d] rest IH]; intros fc; cbn [for_pairs].
  - reflexivity.
  - specialize (IH (fc + 1)). destruct (for_pairs rest speed (fc + 1)) as [evs fc'].
    cbn [fst] in *. rewrite texts_app, IH. unfold show_frame, texts.
    destruct (fc =? 0); reflexivity.
Qed.

Lemma texts_while_true (passes : nat) (pairs : list (string * PyFloat.float))
  (speed : PyFloat.float) (fc : Z) :
  texts (while_true passes pairs speed fc) = concat (repeat (map fst pairs) passes).
Proof.
  revert fc. induction passes as [| k IH]; intros fc; cbn [while_true].
  - reflexivity.
  - pose proof (texts_for_pairs pairs speed fc) as Hp.
    destruct (for_pairs pairs speed fc) as [evs fc']. cbn [fst] in Hp.
    rewrite texts_app, Hp, IH. reflexivity.
Qed.

Lemma zip_fst {A B : Type} (xs : list A) (ys : list B) :
  length xs = length ys -> map fst (zip xs ys) = xs.
Proof.
  revert ys. induction xs as [| x xs IH]; intros [| y ys]; simpl; try discriminate.
  - reflexivity.
  - intros [= Hl]. now rewrite IH.
Qed.

Lemma zip_length {A B : Type} (xs : list A) (ys : list B) :
  length (zip xs ys) = Nat.min (length xs) (length ys).
Proof.
  revert ys. induction xs as [| x xs IH]; intros [| y ys]; simpl; try reflexivity.
  now rewrite IH.
Qed.

Section FileToScreen.
Context {Image : Type} `{PIL Image}.

(** X7: in the playback that [main] starts, [zip] drops nothing: the file
    yields one duration per frame, so when the frames convert, each pass
    of the loop prints every frame of the file once, in file order. *)
Theorem every_frame_is_shown (args : Args) (world : World Image)
  (pb : Playback Image) (fs : list Image) (ts : list string) (passes : nat) :
  snd (main args world) = Returns pb ->
  opened world = Some fs ->
  Forall2 (fun f t => image_to_ascii f (pb_max_width pb) (pb_max_height pb) = OK t)
    (pb_frames pb) ts ->
  pb_frames pb = map (fun f => convert f "RGB") fs /\
  length (pb_durations pb) = length fs /\
  length (zip ts (pb_durations pb)) = length fs /\
  texts (while_true passes (zip ts (pb_durations pb)) (pb_speed pb) 0)
    = concat (repeat ts passes).
Proof.
  intros Hmain Hopen Hconv.
  assert (Hex : extract_gif_frames (opened world)
                = Returns (pb_frames pb, pb_durations pb)).
  { unfold main in Hmain. destruct (path_exists world); cbn [negb] in Hmain;
      [| discriminate].
    destruct (get_terminal_size (terminal world)) as [tw th].
    destruct (choose_max_width (arg_width args) tw); [| discriminate].
    destruct (extract_gif_frames (opened world)) as [[frames durations] | c];
      [| discriminate].
    cbn [snd] in Hmain. injection Hmain as <-. reflexivity. }
  rewrite Hopen in Hex. unfold extract_gif_frames in Hex.
  destruct (for_frame fs [] []) as [[fr du] | e] eqn:Ef; [| discriminate].
  injection Hex as Hfr Hdu.
  apply for_frame_spec in Ef as (secs & -> & -> & Hall). cbn [app] in *.
  pose proof (Forall2_length _ _ _ Hall) as Hlen.
  pose proof (Forall2_length _ _ _ Hconv) as Hlen2.
  rewrite <- Hfr, <- Hdu in *. rewrite length_map in Hlen2.
  split; [reflexivity |]. split; [lia |]. split.
  - rewrite zip_length. lia.
  - rewrite texts_while_true, zip_fst by lia. reflexivity.
Qed.

(** X8: what decides whether playback starts: [main] reaches
    [play_ascii_animation] exactly when the file exists, the explicit
    width, if any, is not negative, and the frames can be read; in every
    other case the process ends with status 1. An explicit positive width
    is passed on unchanged, above 120 or the terminal width too. *)
Theorem playback_starts_iff (args : Args) (world : World Image) :
  ((exists pb, snd (main args world) = Returns pb) <->
   path_exists world = true /\
   (forall n, arg_width args = Some n -> 0 <= n) /\
   (exists r, extract_gif_frames (opened world) = Returns r)) /\
  ((forall pb, snd (main args world) <> Returns pb) ->
   snd (main args world) = SysExit 1) /\
  (forall pb n, snd (main args world) = Returns pb ->
                arg_width args = Some n -> 0 < n -> pb_max_width pb = n).
Proof.
  unfold main, choose_max_width, truthy.
  destruct (path_exists world); cbn [negb].
  2:{ split; [| split].
      - split; [intros (pb & Hpb); discriminate | intros (Hp & _); discriminate].
      - reflexivity.
      - intros pb n Hpb; discriminate. }
  destruct (get_terminal_size (terminal world)) as [tw th].
  destruct (arg_width args) as [n |].
  - destruct (Z.eqb_spec n 0) as [-> | Hn0]; cbn [negb].
    + destruct (extract_gif_frames (opened world)) as [[fr du] | c] eqn:Ex;
        cbn [snd].
      * split; [| split].
        -- split; [intros _ | intros _; eexists; reflexivity].
           split; [reflexivity |]. split; [intros ? [= <-]; lia |].
           eexists; reflexivity.
        -- intros Hno. exfalso. eapply Hno. reflexivity.
        -- intros pb n' _ [= <-]. lia.
      * unfold extract_gif_frames in Ex.
        assert (c = 1) as ->.
        { destruct (opened world) as [fs |]; [| congruence].
          destruct (for_frame fs [] []) as [[? ?] | ?]; congruence. }
        split; [| split].
        -- split; [intros (pb & Hpb); discriminate |].
           intros (_ & _ & r & Hr). discriminate.
        -- reflexivity.
        -- intros pb n' Hpb; discriminate.
    + destruct (Z.leb_spec n 0) as [Hle | Hgt].
      * cbn [snd]. split; [| split].
        -- split; [intros (pb & Hpb); discriminate |].
           intros (_ & Hw & _). specialize (Hw n eq_refl). lia.
        -- reflexivity.
        -- intros pb n' Hpb; discriminate.
      * destruct (extract_gif_frames (opened world)) as [[fr du] | c] eqn:Ex;
          cbn [snd].
        -- split; [| split].
           ++ split; [intros _ | intros _; eexists; reflexivity].
              split; [reflexivity |]. split; [intros ? [= <-]; lia |].
              eexists; reflexivity.
           ++ intros Hno. exfalso. eapply Hno. reflexivity.
           ++ intros pb n' [= <-] [= <-] _. reflexivity.
        -- unfold extract_gif_frames in Ex.
           assert (c = 1) as ->.
           { destruct (opened world) as [fs |]; [| congruence].
             destruct (for_frame fs [] []) as [[? ?] | ?]; congruence. }
           split; [| split].
           ++ split; [intros (pb & Hpb); discriminate |].
              intros (_ & _ & r & Hr). discriminate.
           ++ reflexivity.
           ++ intros pb n' Hpb; discriminate.
  - destruct (extract_gif_frames (opened world)) as [[fr du] | c] eqn:Ex; cbn [snd].
    + split; [| split].
      * split; [intros _ | intros _; eexists; reflexivity].
        split; [reflexivity |]. split; [intros ? [=] |]. eexists; reflexivity.
      * intros Hno. exfalso. eapply Hno. reflexivity.
      * intros pb n' _ [=].
    + unfold extract_gif_frames in Ex.
      assert (c = 1) as ->.
      { destruct (opened world) as [fs |]; [| congruence].
        destruct (for_frame fs [] []) as [[? ?] | ?]; congruence. }
      split; [| split].
      * split; [intros (pb & Hpb); discriminate |].
        intros (_ & _ & r & Hr). discriminate.
      * reflexivity.
      * intros pb n' Hpb; discriminate.
Qed.

End FileToScreen.

(** ** The extension check *)





Section Extension.
Context {Image : Type} `{PIL Image}.



End Extension.


(** ** An interrupted run *)

Section Interrupted.
Context {Image : Type} `{PIL Image}.

(** X10: an interrupt during playback cuts the run short and changes
    nothing before it: what has been printed is the beginning of what the
    undisturbed run prints (the conversion messages and the first [j]
    events of the loop), followed by the stopped message, which appears
    nowhere else; the status is 0. *)
Theorem interrupt_cuts_the_run (frames : list Image) (ts : list string)
  (durations : list PyFloat.float) (max_width max_height : Z)
  (speed : PyFloat.float) (passes j : nat) :
  Forall2 (fun f t => image_to_ascii f max_width max_height = OK t) frames ts ->
  let undisturbed :=
    fst (play_ascii_animation frames durations max_width max_height speed j None) in
  play_ascii_animation frames durations max_width max_height speed passes (Some j)
  = (take (length frames + 3 + j) undisturbed ++ [Stdout Stopped], Exited 0) /\
  ~ In (Stdout Stopped) undisturbed.
Proof.
  intros Hall undisturbed.
  assert (Hrun : play_ascii_animation frames durations max_width max_height speed j None
                 = (Stdout Converting
                      :: map (fun k => Stdout (Progress (Z.of_nat k)
                                                  (Z.of_nat (length frames))))
                           (seq 1 (length frames))
                      ++ [Stdout Starting; Sleep (PyFloat.Z2SF 1)]
                      ++ while_true j (zip ts durations) speed 0,
                    Running)).
  { unfold play_ascii_animation.
    rewrite (convert_frames_ok frames ts _ _ 0 _ [] Hall). cbn [app].
    f_equal. f_equal. rewrite <- app_assoc. reflexivity. }
  assert (Hu : undisturbed
               = (Stdout Converting
                    :: map (fun k => Stdout (Progress (Z.of_nat k)
                                                (Z.of_nat (length frames))))
                         (seq 1 (length frames))
                    ++ [Stdout Starting; Sleep (PyFloat.Z2SF 1)])
                 ++ while_true j (zip ts durations) speed 0).
  { unfold undisturbed. rewrite Hrun. cbn [fst app]. f_equal.
    rewrite <- app_assoc. reflexivity. }
  split.
  - unfold play_ascii_animation.
    rewrite (convert_frames_ok frames ts _ _ 0 _ [] Hall). cbn [app].
    rewrite Hu. f_equal.
    rewrite take_app_add'.
    + cbn [app]. rewrite <- !app_assoc. reflexivity.
    + cbn [length]. rewrite length_app, length_map, length_seq. cbn [length]. lia.
  - rewrite Hu. intros Hin. apply in_app_or in Hin as [Hin | Hin].
    + cbn in Hin. destruct Hin as [Hin | Hin]; [discriminate |].
      apply in_app_or in Hin as [Hin | Hin].
      * apply in_map_iff in Hin as (k & Hk & _). discriminate.
      * cbn in Hin. intuition discriminate.
    + pose proof (while_true_quiet j (zip ts durations) speed 0) as Hq.
      rewrite Forall_forall in Hq.
      apply (Hq (Stdout Stopped)); [now apply list_elem_of_In | reflexivity].
Qed.

End Interrupted.

Lemma interrupt_cuts_the_run_witness :
  let f := {| flat_width := 8; flat_height := 8; flat_info := ∅; flat_level := 255 |} in
  let t := ("    " ++ newline ++ "    ")%string in
  let d := PyFloat.decimal 1 1 in
  let s := PyFloat.decimal 5 1 in
  Forall2 (fun f t => image_to_ascii f 4 3 = OK t) [f; f] [t; t] /\
  play_ascii_animation [f; f] [d; d] 4 3 s 0 (Some 4%nat)
  = (take (length [f; f] + 3 + 4)
       (fst (play_ascii_animation [f; f] [d; d] 4 3 s 4 None)) ++ [Stdout Stopped],
     Exited 0) /\
  ~ In (Stdout Stopped) (fst (play_ascii_animation [f; f] [d; d] 4 3 s 4 None)).
Proof.
  intros f t d s.
  assert (Hall : Forall2 (fun f t => image_to_ascii f 4 3 = OK t) [f; f] [t; t]).
  { repeat constructor; vm_compute; reflexivity. }
  split; [exact Hall |].
  apply (interrupt_cuts_the_run [f; f] [t; t] [d; d] 4 3 s 0 4 Hall).
Defined.

Lemma every_frame_is_shown_witness :
  let f1 := {| flat_width := 8; flat_height := 8; flat_info := ∅; flat_level := 255 |} in
  let f2 := {| flat_width := 8; flat_height := 8;
               flat_info := {[ "duration"%string := 50 ]}; flat_level := 0 |} in
  let args := {| gif_file := "a.gif"; arg_width := Some 4;
                 arg_speed := PyFloat.decimal 5 1 |} in
  let world := {| path_exists := true; terminal := Some (80, 7);
                  opened := Some [f1; f2] |} in
  let pb := {| pb_frames := [f1; f2];
               pb_durations := [PyFloat.decimal 1 1; PyFloat.decimal 5 2];
               pb_max_width := 4; pb_max_height := 3;
               pb_speed := PyFloat.decimal 5 1 |} in
  let ts := [("    " ++ newline ++ "    ")%string; ("@@@@" ++ newline ++ "@@@@")%string] in
  snd (main args world) = Returns pb /\
  opened world = Some [f1; f2] /\
  Forall2 (fun f t => image_to_ascii f (pb_max_width pb) (pb_max_height pb) = OK t)
    (pb_frames pb) ts /\
  pb_frames pb = map (fun f => convert f "RGB") [f1; f2] /\
  length (pb_durations pb) = length [f1; f2] /\
  length (zip ts (pb_durations pb)) = length [f1; f2] /\
  texts (while_true 2 (zip ts (pb_durations pb)) (pb_speed pb) 0)
    = concat (repeat ts 2).
Proof.
  intros f1 f2 args world pb ts.
  assert (Hm : snd (main args world) = Returns pb) by (vm_compute; reflexivity).
  assert (Hc : Forall2 (fun f t => image_to_ascii f (pb_max_width pb)
                                     (pb_max_height pb) = OK t) (pb_frames pb) ts).
  { repeat constructor; vm_compute; reflexivity. }
  split; [exact Hm |]. split; [reflexivity |]. split; [exact Hc |].
  apply (every_frame_is_shown args world pb [f1; f2] ts 2 Hm eq_refl Hc).
Defined.

(** ** Exact results of the float operations *)

Module Exact.
Import PyFloat Rounding.
Local Open Scope Q_scope.

(** A value has one representation with a 53-bit mantissa. *)
Lemma canonical_unique (m m' : positive) (e e' : Z) :
  Z.pos (digits2_pos m) = 53%Z -> Z.pos (digits2_pos m') = 53%Z ->
  V m e == V m' e' -> m = m' /\ e = e'.
Proof.
  intros Hd Hd' Hv.
  destruct (V_bounds m e Hd) as [Hlo Hhi].
  destruct (V_bounds m' e' Hd') as [Hlo' Hhi'].
  assert (He : e = e').
  { assert (e + 52 < e' + 53)%Z by (apply bpow_lt_inv; lra).
    assert (e' + 52 < e + 53)%Z by (apply bpow_lt_inv; lra). lia. }
  subst e'. split; [| reflexivity].
  unfold V in Hv. pose proof (bpow_pos e) as Hp.
  apply Qmult_inj_r in Hv; [| lra].
  rewrite inject_Z_injective in Hv. congruence.
Qed.

(** When the exact value is itself a float, rounding returns it. *)
Lemma round_aux_exact (x : Q) (mx : positive) (ex : Z) (lx : location)
  (mc : positive) (ec : Z) :
  let d := Z.pos (digits2_pos mx) in
  (53 <= d)%Z -> (-1021 <= d + ex)%Z -> (d + ex <= 1023)%Z ->
  located (bpow (- ex) * x) (Z.pos mx) lx ->
  Z.pos (digits2_pos mc) = 53%Z -> x == V mc ec ->
  binary_round_aux prec emax false (Z.pos mx) ex lx = S754_finite false mc ec.
Proof.
  intros d Hd Hlo Hhi Hloc Hdc Hx.
  destruct (round_aux_normal x mx ex lx Hd Hlo Hhi Hloc)
    as (m & e & Hr & Hdm & He & _ & _ & Hex).
  fold d in He, Hex.
  assert (Hec : ec = (d + ex - 53)%Z).
  { pose proof (located_ge _ _ _ Hloc) as Hge.
    pose proof (located_lt _ _ _ Hloc) as Hlt.
    pose proof (digits2_bounds mx) as [Hb1 Hb2]. fold d in Hb1, Hb2.
    assert (Hq1 : bpow (d - 1) <= inject_Z (Z.pos mx)).
    { rewrite bpow_inject by lia. now rewrite <- Zle_Qle. }
    assert (Hq2 : inject_Z (Z.pos mx) + 1 <= bpow d).
    { rewrite bpow_inject by lia. change 1 with (inject_Z 1).
      rewrite <- inject_Z_plus, <- Zle_Qle. lia. }
    assert (Hxe : x == bpow ex * (bpow (- ex) * x)).
    { rewrite Qmult_assoc, bpow_cancel. ring. }
    pose proof (bpow_pos ex) as Hpe.
    assert (Hx1 : bpow (d - 1 + ex) <= x).
    { rewrite bpow_add, Hxe.
      assert (0 <= bpow ex * (bpow (- ex) * x - bpow (d - 1)))
        by (apply Qmult_le_0_compat; lra).
      lra. }
    assert (Hx2 : x < bpow (d + ex)).
    { rewrite bpow_add, Hxe.
      assert (0 < bpow ex * (bpow d - bpow (- ex) * x))
        by (apply Qmult_lt_0_compat; lra).
      lra. }
    destruct (V_bounds mc ec Hdc) as [Hc1 Hc2]. rewrite <- Hx in Hc1, Hc2.
    assert (ec + 52 < d + ex)%Z by (apply bpow_lt_inv; lra).
    assert (d - 1 + ex < ec + 53)%Z by (apply bpow_lt_inv; lra). lia. }
  assert (Hv : V m e == x).
  { apply (Hex (Z.pos mc)). rewrite Hx, <- Hec. reflexivity. }
  rewrite Hx in Hv. destruct (canonical_unique m mc e ec Hdm Hdc Hv) as [-> ->].
  exact Hr.
Qed.

Lemma mul_exact (m1 m2 mc : positive) (e1 e2 ec : Z) :
  Z.pos (digits2_pos m1) = 53%Z -> Z.pos (digits2_pos m2) = 53%Z ->
  (-1126 <= e1 + e2 <= 917)%Z ->
  Z.pos (digits2_pos mc) = 53%Z -> V m1 e1 * V m2 e2 == V mc ec ->
  mul (S754_finite false m1 e1) (S754_finite false m2 e2) = S754_finite false mc ec.
Proof.
  intros Hd1 Hd2 He Hdc Hx.
  pose proof (digits2_53 m1 Hd1) as Hb1. pose proof (digits2_53 m2 Hd2) as Hb2.
  assert (Hd : (105 <= Z.pos (digits2_pos (m1 * m2)) <= 106)%Z).
  { apply (digits2_range (m1 * m2) 104 106); [lia |].
    rewrite Pos2Z.inj_mul.
    change (2 ^ 104)%Z with (4503599627370496 * 4503599627370496)%Z.
    change (2 ^ 106)%Z with (9007199254740992 * 9007199254740992)%Z.
    split.
    - apply Z.mul_le_mono_nonneg; lia.
    - apply Z.mul_lt_mono_nonneg; lia. }
  assert (Hloc : located (bpow (- (e1 + e2)) * (V m1 e1 * V m2 e2))
                   (Z.pos (m1 * m2)) loc_Exact).
  { simpl. unfold V. rewrite Pos2Z.inj_mul, inject_Z_mult.
    transitivity (inject_Z (Z.pos m1) * inject_Z (Z.pos m2) *
                  (bpow (e1 + e2) * bpow (- (e1 + e2)))).
    - rewrite bpow_add. ring.
    - rewrite bpow_cancel. ring. }
  unfold mul. simpl SFmul.
  apply (round_aux_exact (V m1 e1 * V m2 e2) (m1 * m2) (e1 + e2) loc_Exact mc ec);
    try assumption; lia.
Qed.

(** The quotient, located for rounding. *)
Lemma div_core (m1 m2 : positive) (e1 e2 : Z) :
  let delta := (Z.pos (digits2_pos m1) + e1 - (Z.pos (digits2_pos m2) + e2))%Z in
  (-1021 <= delta <= 1022)%Z ->
  exists (pq : positive) (e' : Z) (l : location) (x : Q),
    SFdiv prec emax (S754_finite false m1 e1) (S754_finite false m2 e2)
      = binary_round_aux prec emax false (Z.pos pq) e' l /\
    x * V m2 e2 == V m1 e1 /\
    located (bpow (- e') * x) (Z.pos pq) l /\
    (53 <= Z.pos (digits2_pos pq))%Z /\
    (delta <= Z.pos (digits2_pos pq) + e' <= delta + 1)%Z.
Proof.
  intros delta Hdelta.
  set (d1 := Z.pos (digits2_pos m1)) in *. set (d2 := Z.pos (digits2_pos m2)) in *.
  assert (Hd1 : (1 <= d1)%Z) by (unfold d1; lia).
  assert (Hd2 : (1 <= d2)%Z) by (unfold d2; lia).
  simpl SFdiv. unfold SFdiv_core_binary.
  change (Zdigits2 (Z.pos m1)) with d1. change (Zdigits2 (Z.pos m2)) with d2.
  fold delta. rewrite (fexp_normal delta) by lia.
  set (e' := Z.min (delta - 53) (e1 - e2)).
  set (s := (e1 - e2 - e')%Z).
  assert (Hs : (0 <= s)%Z) by (unfold s, e'; lia).
  set (K := (d1 + s - d2)%Z).
  assert (HK : (53 <= K)%Z) by (unfold K, s, e', delta; lia).
  set (m' := match s with
             | 0%Z => Z.pos m1
             | Z.pos _ => Z.shiftl (Z.pos m1) s
             | Z.neg _ => 0%Z
             end).
  assert (Hm' : m' = (Z.pos m1 * 2 ^ s)%Z).
  { unfold m'. destruct s as [| p | p] eqn:Es; [lia | | lia].
    apply Z.shiftl_mul_pow2. lia. }
  pose proof (Z_div_mod m' (Z.pos m2) ltac:(lia)) as Hdm.
  destruct (Z.div_eucl m' (Z.pos m2)) as [q r]. destruct Hdm as [Heq Hr].
  pose proof (digits2_bounds m1) as Hb1. pose proof (digits2_bounds m2) as Hb2.
  fold d1 in Hb1. fold d2 in Hb2.
  assert (Hq : (2 ^ (K - 1) <= q < 2 ^ (K + 1))%Z).
  { assert (HA : (0 < 2 ^ (d2 - 1))%Z) by (apply Z.pow_pos_nonneg; lia).
    assert (HB : (0 < 2 ^ (K - 1))%Z) by (apply Z.pow_pos_nonneg; lia).
    assert (HS : (0 < 2 ^ s)%Z) by (apply Z.pow_pos_nonneg; lia).
    replace (2 ^ (K + 1))%Z with (4 * 2 ^ (K - 1))%Z
      by (replace (K + 1)%Z with (2 + (K - 1))%Z by ring;
          rewrite Z.pow_add_r by lia; reflexivity).
    apply (quotient_bounds (2 ^ (d2 - 1)) (2 ^ (K - 1)) m' (Z.pos m2) q r);
      try assumption.
    - replace d2 with (1 + (d2 - 1))%Z in Hb2 at 2 by ring.
      rewrite Z.pow_add_r in Hb2 by lia. change (2 ^ 1)%Z with 2%Z in Hb2. lia.
    - rewrite Hm'.
      assert (E1 : (2 * 2 ^ (K - 1) * 2 ^ (d2 - 1) = 2 ^ (d1 - 1) * 2 ^ s)%Z).
      { rewrite <- (Z.pow_add_r 2 (d1 - 1) s) by lia.
        replace (d1 - 1 + s)%Z with (1 + ((K - 1) + (d2 - 1)))%Z by (unfold K; lia).
        rewrite !Z.pow_add_r by lia. change (2 ^ 1)%Z with 2%Z. ring. }
      assert (E2 : (4 * 2 ^ (K - 1) * 2 ^ (d2 - 1) = 2 ^ d1 * 2 ^ s)%Z).
      { replace d1 with (1 + (d1 - 1))%Z at 1 by ring.
        rewrite (Z.pow_add_r 2 1) by lia. change (2 ^ 1)%Z with 2%Z. lia. }
      rewrite E1, E2. split.
      + apply Z.mul_le_mono_nonneg_r; lia.
      + apply Z.mul_lt_mono_pos_r; lia. }
  assert (Hqpos : (0 < q)%Z).
  { assert (0 < 2 ^ (K - 1))%Z by (apply Z.pow_pos_nonneg; lia). lia. }
  destruct q as [| pq | pq]; [lia | | lia].
  pose proof (digits2_range pq (K - 1) (K + 1) ltac:(lia) Hq) as Hdq.
  set (x := inject_Z (Z.pos m1) * bpow (e1 - e2) * / inject_Z (Z.pos m2)).
  assert (HM2 : 0 < inject_Z (Z.pos m2))
    by (change 0 with (inject_Z 0); rewrite <- Zlt_Qlt; lia).
  assert (Hinv : / inject_Z (Z.pos m2) * inject_Z (Z.pos m2) == 1)
    by (rewrite Qmult_comm; apply Qmult_inv_r; lra).
  exists pq, e', (new_location (Z.pos m2) r), x.
  split; [reflexivity |]. split; [| split; [| split]].
  - unfold x, V.
    transitivity (inject_Z (Z.pos m1) * (bpow (e1 - e2) * bpow e2) *
                  (/ inject_Z (Z.pos m2) * inject_Z (Z.pos m2))); [ring |].
    rewrite Hinv, <- bpow_add. replace (e1 - e2 + e2)%Z with e1 by ring. ring.
  - apply new_location_located; [lia | exact Hr |].
    rewrite <- Heq, Hm', inject_Z_mult, <- bpow_inject by lia. unfold x.
    transitivity (inject_Z (Z.pos m1) * (bpow (- e') * bpow (e1 - e2)) *
                  (/ inject_Z (Z.pos m2) * inject_Z (Z.pos m2))); [ring |].
    rewrite Hinv, <- bpow_add. replace (- e' + (e1 - e2))%Z with s by (unfold s; ring).
    ring.
  - lia.
  - unfold K, s in Hdq. lia.
Qed.

Lemma div_exact (m1 m2 mc : positive) (e1 e2 ec : Z) :
  let delta := (Z.pos (digits2_pos m1) + e1 - (Z.pos (digits2_pos m2) + e2))%Z in
  (-1021 <= delta <= 1022)%Z ->
  Z.pos (digits2_pos mc) = 53%Z -> V m1 e1 == V mc ec * V m2 e2 ->
  SFdiv prec emax (S754_finite false m1 e1) (S754_finite false m2 e2)
    = S754_finite false mc ec.
Proof.
  intros delta Hdelta Hdc Hx.
  destruct (div_core m1 m2 e1 e2 Hdelta) as (pq & e' & l & x & Hdiv & Hxv & Hloc & Hd & Hr).
  fold delta in Hr. rewrite Hdiv.
  apply (round_aux_exact x pq e' l mc ec); try assumption; try lia.
  pose proof (V_pos m2 e2) as Hp.
  apply (Qmult_inj_r _ _ (V m2 e2)); [lra |]. rewrite Hxv. exact Hx.
Qed.

End Exact.

(** ** Square sources and sources of width zero *)

Section SquareGrid.
Import PyFloat Rounding Exact.
Local Open Scope Q_scope.

Lemma one_canonical : Z.pos (digits2_pos 4503599627370496) = 53%Z.
Proof. reflexivity. Qed.

Lemma V_one : V 4503599627370496 (-52) == 1.
Proof. reflexivity. Qed.

(** [N / N] is the float 1.0, however large [N] is. *)
Lemma square_aspect_is_one (N : Z) :
  (0 < N)%Z -> int_truediv N N = OK (S754_finite false 4503599627370496 (-52)).
Proof.
  intros HN. destruct N as [| p | p]; try lia.
  unfold int_truediv. change (Z.pos p <? 0)%Z with false.
  change (Z.to_pos (Z.abs (Z.pos p))) with p.
  rewrite (div_exact p p 4503599627370496 0 0 (-52) ltac:(lia) one_canonical).
  - reflexivity.
  - rewrite V_one. ring.
Qed.

Lemma to_int_integer (m : positive) (e n : Z) :
  V m e == inject_Z n -> to_int (S754_finite false m e) = OK n.
Proof.
  intros Hv. destruct (to_int_floor m e) as (-> & Hlo & Hhi).
  f_equal. rewrite Hv in Hlo, Hhi.
  rewrite <- Zle_Qle in Hlo. change 1 with (inject_Z 1) in Hhi.
  rewrite <- inject_Z_plus, <- Zlt_Qlt in Hhi. lia.
Qed.

Lemma to_int_half (m : positive) (e n : Z) :
  V m e == inject_Z n * (1 # 2) -> to_int (S754_finite false m e) = OK (n / 2)%Z.
Proof.
  intros Hv. destruct (to_int_floor m e) as (-> & Hlo & Hhi).
  f_equal. rewrite Hv in Hlo, Hhi.
  set (t := Z.shiftl (Z.pos m) e) in *.
  assert (H1 : (2 * t <= n)%Z).
  { rewrite Zle_Qle, inject_Z_mult. change (inject_Z 2) with 2. lra. }
  assert (H2 : (n < 2 * (t + 1))%Z).
  { rewrite Zlt_Qlt, inject_Z_mult, inject_Z_plus. change (inject_Z 2) with 2.
    change (inject_Z 1) with 1. lra. }
  apply (Z.div_unique n 2 t (n - 2 * t)); lia.
Qed.

(** X11: for a square source the result depends on the bounds only, and
    no rounding occurs: the grid is twice as wide as high,
    [2 * max_height] by [max_height], when that fits the width bound, and
    [max_width] by [max_width // 2] when it does not. *)
Theorem square_grid (N max_width max_height : Z) :
  (0 < N)%Z -> (0 < max_width <= 2 ^ 50)%Z -> (0 < max_height <= 2 ^ 50)%Z ->
  image_to_ascii_size N N max_width max_height
  = OK (if (2 * max_height <=? max_width)%Z
        then (2 * max_height, max_height)%Z
        else (max_width, max_width / 2)%Z).
Proof.
  intros HN Hmw Hmh.
  destruct (of_int_exact max_height Hmh) as (mH & eH & EH & HdH & HeH & HvH).
  destruct (of_int_exact max_width Hmw) as (mW & eW & EW & HdW & HeW & HvW).
  unfold image_to_ascii_size.
  rewrite (square_aspect_is_one N HN). cbn [bind]. rewrite EH. cbn [bind].
  rewrite (mul_exact mH 4503599627370496 mH eH (-52) eH HdH one_canonical
             ltac:(lia) HdH) by (rewrite V_one; ring).
  rewrite two_is_2.
  rewrite (mul_exact mH 4503599627370496 mH eH (-51) (eH + 1) HdH one_canonical
             ltac:(lia) HdH)
    by (rewrite V_two; unfold V; rewrite bpow_succ; ring).
  rewrite (to_int_integer mH (eH + 1) (2 * max_height))
    by (unfold V in *; rewrite bpow_succ, inject_Z_mult, <- HvH;
        change (inject_Z 2) with 2; ring).
  cbn [bind]. rewrite EW. cbn [bind].
  unfold truediv. cbn [is_zero].
  rewrite (div_exact mW 4503599627370496 mW eW (-52) eW
             ltac:(rewrite HdW; change (Z.pos (digits2_pos 4503599627370496)) with 53%Z; lia)
             HdW)
    by (rewrite V_one; ring).
  cbn [bind]. rewrite half_is_half.
  rewrite (mul_exact mW 4503599627370496 mW eW (-53) (eW - 1) HdW one_canonical
             ltac:(lia) HdW)
    by (rewrite V_half; unfold V; rewrite bpow_pred; ring).
  rewrite (to_int_half mW (eW - 1) max_width)
    by (unfold V in *; rewrite bpow_pred, <- HvW; ring).
  cbn [bind]. destruct (2 * max_height <=? max_width)%Z; reflexivity.
Qed.

(** X12: a source of width 0 raises [ZeroDivisionError] as well, not at
    the division by the height but one line later, where the width bound
    is divided by the aspect ratio 0.0. *)
Theorem zero_width_raises (ih max_width max_height : Z) :
  (0 < ih)%Z -> (0 < max_width <= 2 ^ 50)%Z -> (0 < max_height <= 2 ^ 50)%Z ->
  int_truediv 0 ih = OK (S754_zero false) /\
  image_to_ascii_size 0 ih max_width max_height = Raise ZeroDivisionError.
Proof.
  intros Hih Hmw Hmh.
  destruct (of_int_exact max_height Hmh) as (mH & eH & EH & _).
  destruct (of_int_exact max_width Hmw) as (mW & eW & EW & _).
  assert (Ea : int_truediv 0 ih = OK (S754_zero false)).
  { unfold int_truediv. destruct ih as [| p | p]; try lia. reflexivity. }
  split; [exact Ea |].
  unfold image_to_ascii_size. rewrite Ea. cbn [bind]. rewrite EH. cbn [bind].
  rewrite EW. reflexivity.
Qed.

End SquareGrid.

Lemma square_grid_witness :
  0 < 500 /\ 0 < 78 <= 2 ^ 50 /\ 0 < 20 <= 2 ^ 50 /\
  image_to_ascii_size 500 500 78 20
  = OK (if 2 * 20 <=? 78 then (2 * 20, 20) else (78, 78 / 2)).
Proof.
  split; [lia |]. split; [lia |]. split; [lia |].
  apply (square_grid 500 78 20); lia.
Defined.

Lemma zero_width_raises_witness :
  0 < 10 /\ 0 < 80 <= 2 ^ 50 /\ 0 < 24 <= 2 ^ 50 /\
  PyFloat.int_truediv 0 10 = OK (S754_zero false) /\
  image_to_ascii_size 0 10 80 24 = Raise ZeroDivisionError.
Proof.
  split; [lia |]. split; [lia |]. split; [lia |].
  apply (zero_width_raises 10 80 24); lia.
Defined.

(** ** How far rounding can move the grid *)

Section Accuracy.
Import PyFloat Rounding.
Local Open Scope Q_scope.

(** The two candidates with the errors of all roundings, from both
    sides. *)
Lemma size_steps_two_sided (iw ih mw mh : Z) :
  (0 < iw <= 2 ^ 50)%Z -> (0 < ih <= 2 ^ 50)%Z ->
  (0 < mw <= 2 ^ 50)%Z -> (0 < mh <= 2 ^ 50)%Z ->
  exists (A P2 Q2 : Q) (wbh hbw : Z),
    image_to_ascii_size iw ih mw mh =
      (if (wbh <=? mw)%Z then OK (wbh, mh) else OK (mw, hbw)) /\
    0 < A /\
    (1 - u) * inject_Z iw <= A * inject_Z ih /\
    A * inject_Z ih <= (1 + u) * inject_Z iw /\
    inject_Z wbh <= P2 /\ P2 < inject_Z wbh + 1 /\
    (1 - u) * (1 - u) * 2 * (inject_Z mh * A) <= P2 /\
    P2 <= (1 + u) * (1 + u) * 2 * (inject_Z mh * A) /\
    inject_Z hbw <= Q2 /\ Q2 < inject_Z hbw + 1 /\
    (1 - u) * (1 - u) * (1 # 2) * inject_Z mw <= Q2 * A /\
    Q2 * A <= (1 + u) * (1 + u) * (1 # 2) * inject_Z mw.
Proof.
  intros Hiw Hih Hmw Hmh.
  destruct (int_truediv_normal iw ih Hiw Hih) as (ma & ea & Ea & Hda & Hea & Haup & Hadn).
  destruct (of_int_exact mh Hmh) as (mH & eH & EH & HdH & HeH & HvH).
  destruct (of_int_exact mw Hmw) as (mW & eW & EW & HdW & HeW & HvW).
  destruct (mul_normal mH ma eH ea HdH Hda ltac:(lia))
    as (mp & ep & Ep & Hdp & Hep & Hpup & Hpdn).
  destruct (mul_normal mp 4503599627370496 ep (-51) Hdp eq_refl ltac:(lia))
    as (mp2 & ep2 & Ep2 & Hdp2 & Hep2 & Hp2up & Hp2dn).
  destruct (to_int_floor mp2 ep2) as (Ewbh & Hwlo & Hwhi).
  destruct (truediv_normal mW ma eW ea HdW Hda ltac:(lia))
    as (mq & eq & Eq & Hdq & Heq & Hqup & Hqdn).
  destruct (mul_normal mq 4503599627370496 eq (-53) Hdq eq_refl ltac:(lia))
    as (mq2 & eq2 & Eq2 & Hdq2 & Heq2 & Hq2up & Hq2dn).
  destruct (to_int_floor mq2 eq2) as (Ehbw & Hhlo & Hhhi).
  exists (V ma ea), (V mp2 ep2), (V mq2 eq2),
    (Z.shiftl (Z.pos mp2) ep2), (Z.shiftl (Z.pos mq2) eq2).
  split.
  { unfold image_to_ascii_size.
    rewrite Ea. cbn [bind]. rewrite EH. cbn [bind].
    rewrite Ep, two_is_2, Ep2, Ewbh. cbn [bind].
    rewrite EW. cbn [bind]. rewrite Eq. cbn [bind].
    rewrite half_is_half, Eq2, Ehbw. cbn [bind]. reflexivity. }
  pose proof (V_pos ma ea) as HA. pose proof (V_pos mp ep) as HP.
  pose proof (V_pos mq eq) as HQ.
  rewrite V_two in Hp2up, Hp2dn. rewrite V_half in Hq2up, Hq2dn.
  rewrite HvH in Hpup, Hpdn. rewrite HvW in Hqup, Hqdn.
  split; [exact HA |]. split; [exact Hadn |]. split; [exact Haup |].
  split; [exact Hwlo |]. split; [exact Hwhi |].
  split; [| split; [| split; [exact Hhlo | split; [exact Hhhi | split]]]].
  - assert (0 <= (1 - u) * 2 * (V mp ep - (1 - u) * (inject_Z mh * V ma ea))).
    { unfold u in *. apply Qmult_le_0_compat; lra. }
    unfold u in *. lra.
  - assert (0 <= (1 + u) * 2 * ((1 + u) * (inject_Z mh * V ma ea) - V mp ep)).
    { unfold u in *. apply Qmult_le_0_compat; lra. }
    unfold u in *. lra.
  - assert (0 <= V ma ea * (V mq2 eq2 - (1 - u) * (V mq eq * (1 # 2)))).
    { unfold u in *. apply Qmult_le_0_compat; lra. }
    unfold u in *. lra.
  - assert (0 <= V ma ea * ((1 + u) * (V mq eq * (1 # 2)) - V mq2 eq2)).
    { unfold u in *. apply Qmult_le_0_compat; lra. }
    unfold u in *. lra.
Qed.

Lemma floor_or_one_below (E d w : Z) :
  (0 < d)%Z -> (w * d <= E)%Z -> (E <= (w + 1) * d)%Z ->
  w = (E / d)%Z \/ ((E mod d)%Z = 0%Z /\ w = (E / d - 1)%Z).
Proof.
  intros Hd Hlo Hhi.
  pose proof (Z.div_mod E d ltac:(lia)) as Hdm.
  pose proof (Z.mod_pos_bound E d Hd) as Hr.
  assert (w <= E / d)%Z by nia.
  assert (E / d <= w + 1)%Z by nia.
  destruct (Z.eq_dec w (E / d)%Z) as [-> | Hne]; [left; reflexivity | right].
  assert (E / d = w + 1)%Z as Hq by lia.
  split; [| lia]. rewrite Hq in Hdm. nia.
Qed.

(** An integer trapped by two rational bounds less than one away from the
    integers [E] and [E]. *)
Lemma trapped (w d E : Z) (X : Q) :
  inject_Z w * inject_Z d <= X -> X < inject_Z E + 1 ->
  (w * d <= E)%Z.
Proof.
  intros H1 H2.
  assert (inject_Z (w * d) < inject_Z (E + 1)) as H.
  { rewrite inject_Z_mult, inject_Z_plus. change (inject_Z 1) with 1. lra. }
  rewrite <- Zlt_Qlt in H. lia.
Qed.

Lemma trapped_above (w d E : Z) (X : Q) :
  X < (inject_Z w + 1) * inject_Z d -> inject_Z E - 1 < X ->
  (E <= (w + 1) * d)%Z.
Proof.
  intros H1 H2.
  assert (inject_Z (E - 1) < inject_Z ((w + 1) * d)) as H.
  { rewrite inject_Z_mult, inject_Z_plus. unfold Zminus.
    rewrite inject_Z_plus. change (inject_Z 1) with 1.
    change (inject_Z (- (1))) with (- (1)). lra. }
  rewrite <- Zlt_Qlt in H. lia.
Qed.

(** X13: for an image and bounds between one and 2^24, the width
    computed from the height bound is the exact integer quotient
    [2 * max_height * width / height], or one less when that quotient has
    no remainder; the height computed from the width bound is
    [max_width * height / (2 * width)], or one less when that quotient has
    no remainder.  The roundings of lines 25 to 29 never move a candidate
    further. *)
Theorem size_within_one_cell (iw ih max_width max_height : Z) :
  (0 < iw <= 2 ^ 24)%Z -> (0 < ih <= 2 ^ 24)%Z ->
  (0 < max_width <= 2 ^ 24)%Z -> (0 < max_height <= 2 ^ 24)%Z ->
  exists wbh hbw : Z,
    image_to_ascii_size iw ih max_width max_height =
      OK (if (wbh <=? max_width)%Z then (wbh, max_height)
          else (max_width, hbw)) /\
    (wbh = (2 * max_height * iw / ih)%Z \/
     ((2 * max_height * iw) mod ih = 0 /\
      wbh = 2 * max_height * iw / ih - 1)%Z) /\
    (hbw = (max_width * ih / (2 * iw))%Z \/
     ((max_width * ih) mod (2 * iw) = 0 /\
      hbw = max_width * ih / (2 * iw) - 1)%Z).
Proof.
  intros Hiw Hih Hmw Hmh.
  destruct (size_steps_two_sided iw ih max_width max_height)
    as (A & P2 & Q2 & wbh & hbw & Esz & HA & Hadn & Haup & Hwlo & Hwhi
        & Hpdn & Hpup & Hhlo & Hhhi & Hqdn & Hqup); try lia.
  exists wbh, hbw. split.
  { rewrite Esz. destruct (wbh <=? max_width)%Z; reflexivity. }
  assert (0 < inject_Z iw) as Qiw
    by (change 0 with (inject_Z 0); rewrite <- Zlt_Qlt; lia).
  assert (0 < inject_Z ih) as Qih
    by (change 0 with (inject_Z 0); rewrite <- Zlt_Qlt; lia).
  assert (0 < inject_Z max_width) as Qmw
    by (change 0 with (inject_Z 0); rewrite <- Zlt_Qlt; lia).
  assert (0 < inject_Z max_height) as Qmh
    by (change 0 with (inject_Z 0); rewrite <- Zlt_Qlt; lia).
  assert (inject_Z max_height * inject_Z iw <= inject_Z (2 ^ 48)) as BE.
  { rewrite <- inject_Z_mult, <- Zle_Qle. nia. }
  assert (inject_Z max_width * inject_Z ih <= inject_Z (2 ^ 48)) as BF.
  { rewrite <- inject_Z_mult, <- Zle_Qle. nia. }
  change (inject_Z (2 ^ 48)) with (281474976710656 # 1) in BE, BF.
  assert (0 <= P2) as HP2 by (unfold u in *; nra).
  assert (0 <= Q2) as HQ2.
  { destruct (Qlt_le_dec Q2 0) as [Hn | Hn]; [| exact Hn].
    exfalso.
    assert (0 <= A * (0 - Q2)) by (apply Qmult_le_0_compat; lra).
    unfold u in *. lra. }
  set (mh := inject_Z max_height) in *. set (mw := inject_Z max_width) in *.
  set (qw := inject_Z iw) in *. set (qh := inject_Z ih) in *.
  split.
  - apply floor_or_one_below; [lia | |].
    + apply (trapped wbh ih (2 * max_height * iw) (P2 * qh)).
      * assert (0 <= qh * (P2 - inject_Z wbh))
          by (apply Qmult_le_0_compat; lra).
        fold qh. lra.
      * rewrite !inject_Z_mult. change (inject_Z 2) with 2. fold mh qw.
        assert (0 <= qh * ((1 + u) * (1 + u) * 2 * (mh * A) - P2))
          by (unfold u in *; apply Qmult_le_0_compat; lra).
        assert (0 <= mh * ((1 + u) * qw - A * qh))
          by (unfold u in *; apply Qmult_le_0_compat; lra).
        unfold u in *. lra.
    + apply (trapped_above wbh ih (2 * max_height * iw) (P2 * qh)).
      * assert (0 <= qh * (inject_Z wbh + 1 - P2))
          by (apply Qmult_le_0_compat; lra).
        fold qh.
        assert (~ P2 * qh == (inject_Z wbh + 1) * qh).
        { intros Heq. assert (qh * (inject_Z wbh + 1 - P2) == 0) by lra.
          apply Qmult_integral in H0. lra. }
        lra.
      * rewrite !inject_Z_mult. change (inject_Z 2) with 2. fold mh qw.
        assert (0 <= qh * (P2 - (1 - u) * (1 - u) * 2 * (mh * A)))
          by (unfold u in *; apply Qmult_le_0_compat; lra).
        assert (0 <= mh * (A * qh - (1 - u) * qw))
          by (unfold u in *; apply Qmult_le_0_compat; lra).
        unfold u in *. lra.
  - apply floor_or_one_below; [lia | |].
    + apply (trapped hbw (2 * iw) (max_width * ih) (Q2 * (2 * qw))).
      * rewrite inject_Z_mult. change (inject_Z 2) with 2. fold qw.
        assert (0 <= qw * (Q2 - inject_Z hbw))
          by (apply Qmult_le_0_compat; lra).
        lra.
      * rewrite inject_Z_mult. fold mw qh.
        assert (0 <= qh * ((1 + u) * (1 + u) * (1 # 2) * mw - Q2 * A))
          by (unfold u in *; apply Qmult_le_0_compat; lra).
        assert (0 <= Q2 * (A * qh - (1 - u) * qw))
          by (unfold u in *; apply Qmult_le_0_compat; lra).
        unfold u in *. lra.
    + apply (trapped_above hbw (2 * iw) (max_width * ih) (Q2 * (2 * qw))).
      * rewrite inject_Z_mult. change (inject_Z 2) with 2. fold qw.
        assert (0 <= qw * (inject_Z hbw + 1 - Q2))
          by (apply Qmult_le_0_compat; lra).
        assert (~ Q2 * qw == (inject_Z hbw + 1) * qw).
        { intros Heq. assert (qw * (inject_Z hbw + 1 - Q2) == 0) by lra.
          apply Qmult_integral in H0. lra. }
        lra.
      * rewrite inject_Z_mult. fold mw qh.
        assert (0 <= qh * (Q2 * A - (1 - u) * (1 - u) * (1 # 2) * mw))
          by (unfold u in *; apply Qmult_le_0_compat; lra).
        assert (0 <= Q2 * ((1 + u) * qw - A * qh))
          by (unfold u in *; apply Qmult_le_0_compat; lra).
        unfold u in *. lra.
Qed.

End Accuracy.

Lemma size_within_one_cell_witness :
  0 < 640 <= 2 ^ 24 /\ 0 < 480 <= 2 ^ 24 /\
  0 < 78 <= 2 ^ 24 /\ 0 < 20 <= 2 ^ 24 /\
  exists wbh hbw : Z,
    image_to_ascii_size 640 480 78 20 =
      OK (if wbh <=? 78 then (wbh, 20) else (78, hbw)) /\
    (wbh = 2 * 20 * 640 / 480 \/
     ((2 * 20 * 640) mod 480 = 0 /\ wbh = 2 * 20 * 640 / 480 - 1)) /\
    (hbw = 78 * 480 / (2 * 640) \/
     ((78 * 480) mod (2 * 640) = 0 /\ hbw = 78 * 480 / (2 * 640) - 1)).
Proof.
  split; [lia |]. split; [lia |]. split; [lia |]. split; [lia |].
  apply (size_within_one_cell 640 480 78 20); lia.
Defined.

(** The second alternative does occur: for a 1 x 49 image and a height bound
    of 49 the exact quotient is 2, and the floats give 1. *)
Remark one_cell_below_occurs :
  image_to_ascii_size 1 49 1000 49 = OK (1, 49) /\
  (2 * 49 * 1 / 49 = 2 /\ (2 * 49 * 1) mod 49 = 0).
Proof. vm_compute. repeat split. Qed.

(** * Properties of remove_transparency.py *)

Section Whiten.
Import RemoveTransparency.
Context {Image : Type} {pil : PIL Image} {paint : Paint Image}.

Lemma last_cons {A} (x d : A) (l : list A) :
  List.last (x :: l) d = List.last l x.
Proof.
  revert x d. induction l as [| y l IH]; intros x d; [reflexivity |].
  change (List.last (x :: y :: l) d) with (List.last (y :: l) d).
  rewrite (IH y d), (IH y x). reflexivity.
Qed.

Lemma seek_in_range (gif : Gif Image) (k : nat) (im : Image) :
  all_frames gif !! k = Some im -> seek gif (Z.of_nat k) = Some im.
Proof.
  intros Hk. unfold seek.
  destruct (Z.ltb_spec (Z.of_nat k) 0) as [Hneg | _]; [lia |].
  now rewrite Nat2Z.id.
Qed.

(** The only exception of [whitened]: a converted frame without bands. *)
Lemma whitened_raises (im : Image) (e : exn) :
  whitened im = Raise e ->
  e = IndexError /\ split (convert im "RGBA") = [].
Proof.
  unfold whitened.
  destruct (existsb _ _); [| discriminate].
  destruct (String.eqb _ _); [| discriminate].
  unfold last_item.
  destruct (split (convert im "RGBA")) as [| b bs] eqn:Es.
  - cbn. intros [= <-]. now split.
  - assert (exists a, List.last (map Some (b :: bs)) None = Some a) as (a & ->).
    { clear Es. revert b. induction bs as [| c bs IH]; intros b.
      - now exists b.
      - destruct (IH c) as (a & Ha). exists a. exact Ha. }
    cbn. discriminate.
Qed.

(** The loop over a stretch [a, a + n) of the frame numbers. *)
Lemma for_frame_num_spec (gif : Gif Image) (n a : nat) (current : Image)
  (frames : list Image) :
  (a + n <= length (all_frames gif))%nat ->
  let todo := take n (drop a (all_frames gif)) in
  match for_frame_num gif (map Z.of_nat (seq a n)) current frames with
  | inr (current', frames') =>
      exists ws, Forall2 (fun im w => whitened im = OK w) todo ws /\
                 frames' = frames ++ ws /\
                 current' = List.last todo current
  | inl e =>
      exists im e', In im todo /\ whitened im = Raise e' /\ e = Raised e'
  end.
Proof.
  revert a current frames.
  induction n as [| n IH]; intros a current frames Hlen todo.
  - cbn. exists []. repeat split; [constructor | now rewrite app_nil_r].
  - cbn [seq map for_frame_num].
    destruct (lookup_lt_is_Some_2 (all_frames gif) a ltac:(lia)) as (im & Him).
    rewrite (seek_in_range gif a im Him).
    assert (Htodo : todo = im :: take n (drop (S a) (all_frames gif))).
    { unfold todo. rewrite (drop_S _ _ _ Him). reflexivity. }
    destruct (whitened im) as [w | e] eqn:Ew.
    + specialize (IH (S a) im (frames ++ [w]) ltac:(lia)). cbn zeta in IH.
      destruct (for_frame_num gif (map Z.of_nat (seq (S a) n)) im (frames ++ [w]))
        as [e | [current' frames']].
      * destruct IH as (im' & e' & Hin & He & ->).
        exists im', e'. rewrite Htodo. repeat split; [now right | exact He].
      * destruct IH as (ws & Hall & -> & ->).
        exists (w :: ws). rewrite Htodo. repeat split.
        -- now constructor.
        -- now rewrite <- app_assoc.
        -- now rewrite last_cons.
    + exists im, e. rewrite Htodo. repeat split; [now left | exact Ew].
Qed.

(** What lines 13 to 36 do to an opened file. *)
Lemma try_block_spec (files : Files Image) (input_path output_path : string)
  (gif : Gif Image) :
  open files input_path = Some gif ->
  (exists im, In im (all_frames gif) /\ whitened im = Raise IndexError /\
     try_block files input_path output_path = inl (Raised IndexError)) \/
  (exists w ws,
     Forall2 (fun im f => whitened im = OK f) (all_frames gif) (w :: ws) /\
     let call :=
       {| path := output_path; first := w; append_images := ws;
          duration := default 100
            (info (List.last (later_frames gif) (first_frame gif)) !! "duration"%string);
          loop := default 0
            (info (List.last (later_frames gif) (first_frame gif)) !! "loop"%string) |} in
     try_block files input_path output_path
     = if save files call then inr call else inl SaveFailed).
Proof.
  intros Hopen. unfold try_block. rewrite Hopen.
  pose proof (for_frame_num_spec gif (length (all_frames gif)) 0
                (first_frame gif) [] ltac:(lia)) as Hloop.
  cbn zeta in Hloop. rewrite drop_0, firstn_all in Hloop.
  unfold range, n_frames. rewrite Nat2Z.id.
  destruct (for_frame_num gif (map Z.of_nat (seq 0 (length (all_frames gif))))
              (first_frame gif) []) as [e | [current frames]].
  - left. destruct Hloop as (im & e' & Hin & He & ->).
    destruct (whitened_raises im e' He) as (-> & _).
    exists im. now repeat split.
  - right. destruct Hloop as (ws & Hall & -> & ->). cbn [app].
    inversion Hall as [| im w ims ws' Hw Hrest Eims Ews]; subst.
    exists w, ws'. split; [exact Hall |].
    cbn zeta.
    unfold all_frames. rewrite last_cons. reflexivity.
Qed.


(** X15: the file is written with one duration and one loop count, read
    from the last frame of the input: its [duration] entry, 100 when it
    has none, and its [loop] entry, 0 when it has none. What the earlier
    frames carry is not used. *)
Theorem timing_of_last_frame (files : Files Image) (args : Args)
  (gif : Gif Image) (call : Saved Image) :
  open files (input args) = Some gif ->
  In (Written call) (fst (main files args)) ->
  let final := List.last (later_frames gif) (first_frame gif) in
  duration call = default 100 (info final !! "duration"%string) /\
  loop call = default 0 (info final !! "loop"%string).
Proof.
  intros Hopen Hin final. unfold main, remove_transparency in Hin.
  destruct (try_block_spec files (input args) (output_path args) gif Hopen)
    as [(im & _ & _ & Htry) | (w & ws & Hall & Htry)].
  - rewrite Htry in Hin. cbn in Hin. destruct Hin as [Hin | []]. discriminate.
  - cbn zeta in Htry. rewrite Htry in Hin.
    destruct (save files _) eqn:Hsave.
    + cbn in Hin. destruct Hin as [Hin | [Hin | []]]; [| discriminate].
      injection Hin as <-. split; reflexivity.
    + cbn in Hin. destruct Hin as [Hin | []]. discriminate.
Qed.


(** X17: if Pillow's operations keep their promises about mode and size
    ([convert] gives the mode asked for and keeps the size, [new] gives
    the mode and size asked for, [paste] changes neither of the
    background), every frame written has mode RGB, so no transparency, and
    the size of the input frame it comes from. *)
Theorem written_frames_are_rgb (files : Files Image) (args : Args)
  (gif : Gif Image) (call : Saved Image) :
  (forall im m, mode (convert im m) = m /\ size (convert im m) = size im) ->
  (forall m s c, mode (new m s c) = m /\ size (new m s c) = s) ->
  (forall bg im mask, mode (paste bg im mask) = mode bg /\
                      size (paste bg im mask) = size bg) ->
  open files (input args) = Some gif ->
  In (Written call) (fst (main files args)) ->
  Forall2 (fun im f => mode f = "RGB"%string /\ size f = size im)
    (all_frames gif) (first call :: append_images call).
Proof.
  intros Hconvert Hnew Hpaste Hopen Hin.
  assert (Hone : forall im f, whitened im = OK f ->
                   mode f = "RGB"%string /\ size f = size im).
  { intros im f. unfold whitened.
    destruct (existsb _ _).
    - destruct (String.eqb _ _).
      + destruct (last_item _) as [b | e]; cbn [bind]; [| discriminate].
        intros [= <-].
        destruct (Hpaste (new "RGB" (size im) (255, 255, 255))
                    (convert im "RGBA") (Some b)) as (-> & ->).
        apply Hnew.
      + cbn [bind]. intros [= <-].
        destruct (Hpaste (new "RGB" (size im) (255, 255, 255))
                    (convert im "RGBA") None) as (-> & ->).
        apply Hnew.
    - intros [= <-]. apply Hconvert. }
  unfold main, remove_transparency in Hin.
  destruct (try_block_spec files (input args) (output_path args) gif Hopen)
    as [(im & _ & _ & Htry) | (w & ws & Hall & Htry)].
  - rewrite Htry in Hin. cbn in Hin. destruct Hin as [Hin | []]. discriminate.
  - cbn zeta in Htry. rewrite Htry in Hin.
    destruct (save files _) eqn:Hsave.
    + cbn in Hin. destruct Hin as [Hin | [Hin | []]]; [| discriminate].
      injection Hin as <-. cbn [first append_images].
      clear -Hall Hone.
      induction Hall as [| im f ims fs Hf _ IH]; constructor; auto.
    + cbn in Hin. destruct Hin as [Hin | []]. discriminate.
Qed.

End Whiten.

Section WhitenExamples.
Import RemoveTransparency.


Lemma timing_of_last_frame_witness :
  let clear := {| sheet_mode := "RGBA"; sheet_size := (2, 2);
                  sheet_info := {[ "duration"%string := 40 ]};
                  sheet_colour := (10, 20, 30); sheet_alpha := 0 |} in
  let solid := {| sheet_mode := "RGB"; sheet_size := (2, 2);
                  sheet_info := {[ "duration"%string := 70 ]};
                  sheet_colour := (10, 20, 30); sheet_alpha := 255 |} in
  let white := {| sheet_mode := "RGB"; sheet_size := (2, 2); sheet_info := ∅;
                  sheet_colour := (255, 255, 255); sheet_alpha := 255 |} in
  let gif := {| first_frame := clear; later_frames := [solid] |} in
  let files := {| open := fun p => if String.eqb p "in.gif" then Some gif else None;
                  save := fun _ => true |} in
  let args := {| input := "in.gif"; output := Some "out.gif"%string |} in
  let call := {| path := "out.gif"; first := white; append_images := [solid];
                 duration := 70; loop := 0 |} in
  open files (input args) = Some gif /\
  In (Written call) (fst (main files args)) /\
  duration call
  = default 100 (info (List.last (later_frames gif) (first_frame gif))
                   !! "duration"%string) /\
  loop call
  = default 0 (info (List.last (later_frames gif) (first_frame gif))
                 !! "loop"%string).
Proof.
  intros clear solid white gif files args call.
  assert (Hopen : open files (input args) = Some gif) by reflexivity.
  assert (Hin : In (Written call) (fst (main files args))) by (left; reflexivity).
  split; [exact Hopen |]. split; [exact Hin |].
  apply (timing_of_last_frame files args gif call Hopen Hin).
Defined.

Lemma written_frames_are_rgb_witness :
  let clear := {| sheet_mode := "RGBA"; sheet_size := (2, 2);
                  sheet_info := {[ "duration"%string := 40 ]};
                  sheet_colour := (10, 20, 30); sheet_alpha := 0 |} in
  let grey := {| sheet_mode := "L"; sheet_size := (3, 5);
                 sheet_info := ∅;
                 sheet_colour := (90, 90, 90); sheet_alpha := 255 |} in
  let white := {| sheet_mode := "RGB"; sheet_size := (2, 2); sheet_info := ∅;
                  sheet_colour := (255, 255, 255); sheet_alpha := 255 |} in
  let gif := {| first_frame := clear; later_frames := [grey] |} in
  let files := {| open := fun p => if String.eqb p "in.gif" then Some gif else None;
                  save := fun _ => true |} in
  let args := {| input := "in.gif"; output := None |} in
  let call := {| path := "in.gif"; first := white;
                 append_images := [convert grey "RGB"];
                 duration := 100; loop := 0 |} in
  (forall (im : Sheet) m, mode (convert im m) = m /\ size (convert im m) = size im) /\
  (forall m s c, mode (new (Image := Sheet) m s c) = m /\
                 size (new (Image := Sheet) m s c) = s) /\
  (forall (bg im : Sheet) mask, mode (paste bg im mask) = mode bg /\
                                size (paste bg im mask) = size bg) /\
  open files (input args) = Some gif /\
  In (Written call) (fst (main files args)) /\
  Forall2 (fun im f => mode f = "RGB"%string /\ size f = size im)
    (all_frames gif) (first call :: append_images call).
Proof.
  intros clear grey white gif files args call.
  assert (Hconvert : forall (im : Sheet) m,
             mode (convert im m) = m /\ size (convert im m) = size im)
    by (intros im m; split; reflexivity).
  assert (Hnew : forall m s c, mode (new (Image := Sheet) m s c) = m /\
                               size (new (Image := Sheet) m s c) = s)
    by (intros m s c; split; reflexivity).
  assert (Hpaste : forall (bg im : Sheet) mask,
             mode (paste bg im mask) = mode bg /\ size (paste bg im mask) = size bg).
  { intros bg im mask. cbn.
    destruct (match mask with Some m => _ | None => true end); split; reflexivity. }
  assert (Hopen : open files (input args) = Some gif) by reflexivity.
  assert (Hin : In (Written call) (fst (main files args))) by (left; reflexivity).
  split; [exact Hconvert |]. split; [exact Hnew |]. split; [exact Hpaste |].
  split; [exact Hopen |]. split; [exact Hin |].
  apply (written_frames_are_rgb files args gif call Hconvert Hnew Hpaste Hopen Hin).
Defined.

End WhitenExamples.
